(** * AdaSplit adaptive scheduler: a shallow embedding of
      [tools/routers/router_dynamic.py] and the properties of its
      worker pool, admission policy, wait queues, dispatch loop and
      Q-HAP rebalancer.

    Conventions of the embedding.
    - A [Worker] object is identified by its position in
      [scheduler.workers]; every place where the Python code holds a
      reference to a worker holds that position here, and a mutation of
      the object is an update of the list at that position.
    - [time.time()] is a rational number of seconds.  One non-suspending
      piece of Python code (everything between two [await] points) reads
      the clock as a single instant [now]; the dispatch loop is also
      given with a clock reading per iteration ([dispatch_queue_at]).
    - The asyncio event loop is a FIFO list of ready tasks
      ([asyncio.create_task] appends), a list of forwards suspended in
      [await http_client.send], and the futures resolved so far. *)

From Stdlib Require Import List ZArith QArith Bool Arith Lia Lqa Ascii String.
Import ListNotations.

Local Open Scope nat_scope.
Local Open Scope list_scope.

(** ** Configuration constants (module level of the router) *)

Definition HAP_HIGH_WATERMARK : nat := 10.
Definition HAP_LOW_WATERMARK : nat := 2.
Definition HAP_COOLDOWN : Q := 5%Q.
Definition RASP_STEAL_COOLDOWN : Q := 2%Q.
Definition WORKER_CONCURRENCY_LIMIT : Z := 8%Z.
Definition STATIC_THRESHOLD : nat := 3000.

Definition WORKER_URLS : list string :=
  [ "http://localhost:8001/v1/chat/completions"%string;
    "http://localhost:8002/v1/chat/completions"%string;
    "http://localhost:8003/v1/chat/completions"%string;
    "http://localhost:8004/v1/chat/completions"%string ].

(** Strict comparison of two clock readings, as a boolean. *)
Definition Qlt_bool (a b : Q) : bool := negb (Qle_bool b a).

(** ** TaskType *)

Inductive TaskType : Type := LONG | SHORT.

Definition TaskType_eqb (a b : TaskType) : bool :=
  match a, b with
  | LONG, LONG | SHORT, SHORT => true
  | _, _ => false
  end.

(** ** Worker *)

Record Worker : Type := mkWorker {
  id : nat;
  url : string;
  current_role : TaskType;
  active_requests : Z;
  last_active_time : Q
}.

(** [Worker.__init__]: role LONG, no request, idle since construction. *)
Definition Worker_init (worker_id : nat) (u : string) (now : Q) : Worker :=
  mkWorker worker_id u LONG 0%Z now.

Definition set_role (r : TaskType) (w : Worker) : Worker :=
  mkWorker (id w) (url w) r (active_requests w) (last_active_time w).

Definition inc_requests (w : Worker) : Worker :=
  mkWorker (id w) (url w) (current_role w)
           (active_requests w + 1)%Z (last_active_time w).

Definition dec_requests (now : Q) (w : Worker) : Worker :=
  let a := Z.max 0 (active_requests w - 1) in
  mkWorker (id w) (url w) (current_role w) a
           (if (a =? 0)%Z then now else last_active_time w).

Definition can_accept (w : Worker) : bool :=
  (active_requests w <? WORKER_CONCURRENCY_LIMIT)%Z.

Definition get_idle_duration (now : Q) (w : Worker) : Q :=
  if (active_requests w >? 0)%Z then 0%Q
  else (now - last_active_time w)%Q.

(** ** Requests, futures and queue entries *)

(** One element of [body["messages"]]: [content] is [None] when the key
    is absent ([m.get("content", "")] then yields the empty string).
    The inbound interface fixes the content to be text. *)
Record Message : Type := mkMessage { content : option string }.

(** The JSON body: [messages] is [None] when the key is absent. *)
Record Body : Type := mkBody { messages : option (list Message) }.

(** The FastAPI [Request] object and an [asyncio.Future] are opaque
    identities. *)
Definition Request : Type := nat.
Definition Future : Type := nat.

(** A queue entry is the tuple [(future, body, request)]. *)
Definition Pending : Type := (Future * Body * Request)%type.

(** ** AdaSplitScheduler *)

Record Scheduler : Type := mkScheduler {
  workers : list Worker;
  queue_long : list Pending;
  queue_short : list Pending;
  last_rebalance_time : Q
}.

Definition set_workers (ws : list Worker) (s : Scheduler) : Scheduler :=
  mkScheduler ws (queue_long s) (queue_short s) (last_rebalance_time s).
Definition set_queue_long (q : list Pending) (s : Scheduler) : Scheduler :=
  mkScheduler (workers s) q (queue_short s) (last_rebalance_time s).
Definition set_queue_short (q : list Pending) (s : Scheduler) : Scheduler :=
  mkScheduler (workers s) (queue_long s) q (last_rebalance_time s).
Definition set_last_rebalance_time (t : Q) (s : Scheduler) : Scheduler :=
  mkScheduler (workers s) (queue_long s) (queue_short s) t.

(** In-place mutation of the object at position [i]; a position past
    the end denotes no object and nothing changes. *)
Fixpoint alter_at {A : Type} (f : A -> A) (i : nat) (l : list A) : list A :=
  match l, i with
  | [], _ => []
  | x :: r, O => f x :: r
  | x :: r, S j => x :: alter_at f j r
  end.

(** [enumerate(l)] starting from [k]. *)
Fixpoint enumerate_from {A : Type} (k : nat) (l : list A) : list (nat * A) :=
  match l with
  | [] => []
  | x :: r => (k, x) :: enumerate_from (S k) r
  end.

Definition enumerate {A : Type} (l : list A) : list (nat * A) :=
  enumerate_from 0 l.

(** [AdaSplitScheduler.__init__]: workers 1..4, the first two LONG and
    the last two SHORT, empty queues. *)
Definition Scheduler_init (now : Q) : Scheduler :=
  let ws := map (fun p => Worker_init (fst p + 1) (snd p) now)
                (enumerate WORKER_URLS) in
  let ws := alter_at (set_role LONG) 0 ws in
  let ws := alter_at (set_role LONG) 1 ws in
  let ws := alter_at (set_role SHORT) 2 ws in
  let ws := alter_at (set_role SHORT) 3 ws in
  mkScheduler ws [] [] now.

Definition count_role (r : TaskType) (ws : list Worker) : nat :=
  List.length (filter (fun w => TaskType_eqb (current_role w) r) ws).

(** [get_partition_status]: [(n_long, n_short)]. *)
Definition get_partition_status (s : Scheduler) : nat * nat :=
  (count_role LONG (workers s), count_role SHORT (workers s)).

(** [next((w for w in ws if w.current_role == r), None)], as a position. *)
Fixpoint first_with_role (r : TaskType) (ws : list (nat * Worker)) : option nat :=
  match ws with
  | [] => None
  | (i, w) :: rest =>
      if TaskType_eqb (current_role w) r then Some i
      else first_with_role r rest
  end.

(** ** Part A: one iteration of [run_qhap_loop] after its [sleep(1)] *)

Definition qhap_tick (now : Q) (s : Scheduler) : Scheduler :=
  if Qlt_bool (now - last_rebalance_time s)%Q HAP_COOLDOWN then s
  else
    let q_long_size := List.length (queue_long s) in
    let '(n_long, n_short) := get_partition_status s in
    if (HAP_HIGH_WATERMARK <? q_long_size) && (1 <? n_short) then
      match first_with_role SHORT (enumerate (workers s)) with
      | Some target =>
          set_last_rebalance_time now
            (set_workers (alter_at (set_role LONG) target (workers s)) s)
      | None => s
      end
    else if (q_long_size <? HAP_LOW_WATERMARK) && (2 <? n_long) then
      match first_with_role LONG (rev (enumerate (workers s))) with
      | Some target =>
          set_last_rebalance_time now
            (set_workers (alter_at (set_role SHORT) target (workers s)) s)
      | None => s
      end
    else s.

(** ** Part B: [try_get_worker] *)

(** Python's [min(x :: xs, key=key)]: the first element with the
    smallest key; the running best is replaced only by a strictly
    smaller key. *)
Fixpoint min_by_key {A : Type} (key : A -> Z) (best : A) (xs : list A) : A :=
  match xs with
  | [] => best
  | y :: r => min_by_key key (if (key y <? key best)%Z then y else best) r
  end.

(** The [for w in self.workers] loop of the stealing branch. *)
Fixpoint steal_loop (now : Q) (short_q_empty : bool)
         (ws : list (nat * Worker)) : option nat :=
  match ws with
  | [] => None
  | (i, w) :: rest =>
      if TaskType_eqb (current_role w) SHORT && can_accept w then
        if short_q_empty
           && Qlt_bool RASP_STEAL_COOLDOWN (get_idle_duration now w)
        then Some i
        else steal_loop now short_q_empty rest
      else steal_loop now short_q_empty rest
  end.

Definition home_candidates (task_type : TaskType) (s : Scheduler)
  : list (nat * Worker) :=
  filter (fun p => TaskType_eqb (current_role (snd p)) task_type
                   && can_accept (snd p))
         (enumerate (workers s)).

Definition try_get_worker (now : Q) (s : Scheduler) (task_type : TaskType)
  : option nat :=
  match home_candidates task_type s with
  | c :: cs =>
      Some (fst (min_by_key (fun p => active_requests (snd p)) c cs))
  | [] =>
      match task_type with
      | LONG =>
          let short_q_empty := (List.length (queue_short s) =? 0) in
          steal_loop now short_q_empty (enumerate (workers s))
      | SHORT => None
      end
  end.

(** ** Helper: [estimate_token_count] and the classification *)

Definition content_str (m : Message) : string :=
  match content m with
  | Some c => c
  | None => EmptyString
  end.

(** ["".join(parts)] *)
Definition join (parts : list string) : string :=
  fold_right String.append EmptyString parts.

(** [if not messages: return 0] covers both the empty list and a
    missing list; otherwise the joined text's length, floor-divided. *)
Definition estimate_token_count (msgs : option (list Message)) : nat :=
  match msgs with
  | None => 0
  | Some [] => 0
  | Some ms => String.length (join (map content_str ms)) / 4
  end.

(** The first step of [chat_completions]. *)
Definition classify (body : Body) : TaskType :=
  let token_len := estimate_token_count (messages body) in
  if STATIC_THRESHOLD <? token_len then LONG else SHORT.

(** ** The event loop around the scheduler *)

(** What [asyncio.create_task] was given. *)
Inductive Task : Type :=
| T_dispatch_queue
| T_run_task (worker : nat) (body : Body) (req_obj : Request) (future : Future).

(** How [await http_client.send(req, stream=True)] ends: it raises, or
    it returns the backend's response head with its status code. *)
Inductive SendOutcome : Type :=
| Send_raises (e : string)
| Send_returns (status_code : nat).

(** [StreamingResponse(r.aiter_raw(), status_code=r.status_code, ...)];
    the byte stream and media type pass through and are not modelled. *)
Inductive Response : Type :=
| StreamingResponse (status_code : nat).

(** How a coroutine ends, and what a future is resolved with. *)
Inductive Completion : Type :=
| Returned (r : Response)
| Raised (e : string).

(** Who awaits a [process_request] coroutine: the request handler itself
    (direct placement) or a [run_task] task holding the queue entry's
    future. *)
Inductive Awaiter : Type :=
| By_handler (req_obj : Request)
| By_run_task (future : Future).

(** A [process_request] suspended in [await http_client.send]. *)
Record Forward : Type := mkForward {
  fw_worker : nat;
  fw_awaiter : Awaiter
}.

(** History of the capacity calls made on workers. *)
Inductive Call : Type :=
| Call_inc (worker : nat)
| Call_dec (worker : nat).

Record World : Type := mkWorld {
  scheduler : Scheduler;
  ready : list Task;
  sending : list Forward;
  futures : list (Future * Completion);
  replies : list (Request * Completion);
  next_future : Future;
  calls : list Call
}.

Definition with_scheduler (s : Scheduler) (w : World) : World :=
  mkWorld s (ready w) (sending w) (futures w) (replies w)
          (next_future w) (calls w).
Definition with_ready (r : list Task) (w : World) : World :=
  mkWorld (scheduler w) r (sending w) (futures w) (replies w)
          (next_future w) (calls w).
Definition with_sending (f : list Forward) (w : World) : World :=
  mkWorld (scheduler w) (ready w) f (futures w) (replies w)
          (next_future w) (calls w).
Definition with_futures (f : list (Future * Completion)) (w : World) : World :=
  mkWorld (scheduler w) (ready w) (sending w) f (replies w)
          (next_future w) (calls w).
Definition with_replies (r : list (Request * Completion)) (w : World) : World :=
  mkWorld (scheduler w) (ready w) (sending w) (futures w) r
          (next_future w) (calls w).
Definition with_next_future (n : Future) (w : World) : World :=
  mkWorld (scheduler w) (ready w) (sending w) (futures w) (replies w)
          n (calls w).
Definition with_calls (c : list Call) (w : World) : World :=
  mkWorld (scheduler w) (ready w) (sending w) (futures w) (replies w)
          (next_future w) c.

Definition alter_worker (f : Worker -> Worker) (i : nat) (w : World) : World :=
  with_scheduler
    (set_workers (alter_at f i (workers (scheduler w))) (scheduler w)) w.

(** [process_request] up to its suspension: [worker.inc_requests()],
    then the coroutine waits in [send]. *)
Definition process_request_begin (worker : nat) (aw : Awaiter) (w : World)
  : World :=
  let w := with_calls (calls w ++ [Call_inc worker])
                      (alter_worker inc_requests worker w) in
  with_sending (sending w ++ [mkForward worker aw]) w.

(** [process_request] from the end of [send]: the [try] body returns the
    response or lets the exception through, and the [finally] block runs
    in both cases: [worker.dec_requests()] and
    [asyncio.create_task(dispatch_queue())]. *)
Definition process_request_end (now : Q) (worker : nat) (o : SendOutcome)
           (w : World) : World * Completion :=
  let result := match o with
                | Send_returns st => Returned (StreamingResponse st)
                | Send_raises e => Raised e
                end in
  let w := with_calls (calls w ++ [Call_dec worker])
                      (alter_worker (dec_requests now) worker w) in
  (with_ready (ready w ++ [T_dispatch_queue]) w, result).

(** [run_task] after [process_request] has ended: the [try]/[except]
    resolves the future either way and the task ends normally. *)
Definition run_task_end (future : Future) (c : Completion) (w : World)
  : World :=
  match c with
  | Returned response =>
      with_futures (futures w ++ [(future, Returned response)]) w
  | Raised e =>
      with_futures (futures w ++ [(future, Raised e)]) w
  end.

(** The first loop of [dispatch_queue].  [q] is [scheduler.queue_short]
    at the loop head; nothing in the body suspends, and the created
    tasks only start after [dispatch_queue] is over. *)
Fixpoint dispatch_short (now : Q) (s : Scheduler) (q : list Pending)
  : Scheduler * list Task :=
  match q with
  | [] => (set_queue_short [] s, [])
  | (task_future, body, req_obj) :: q' =>
      match try_get_worker now (set_queue_short q s) SHORT with
      | Some worker =>
          let '(s', ts) := dispatch_short now s q' in
          (s', T_run_task worker body req_obj task_future :: ts)
      | None => (set_queue_short q s, [])
      end
  end.

(** The second loop of [dispatch_queue]. *)
Fixpoint dispatch_long (now : Q) (s : Scheduler) (q : list Pending)
  : Scheduler * list Task :=
  match q with
  | [] => (set_queue_long [] s, [])
  | (task_future, body, req_obj) :: q' =>
      match try_get_worker now (set_queue_long q s) LONG with
      | Some worker =>
          let '(s', ts) := dispatch_long now s q' in
          (s', T_run_task worker body req_obj task_future :: ts)
      | None => (set_queue_long q s, [])
      end
  end.

(** [dispatch_queue]: the new scheduler and the tasks created, in
    creation order. *)
Definition dispatch_queue (now : Q) (s : Scheduler) : Scheduler * list Task :=
  let '(s1, ts1) := dispatch_short now s (queue_short s) in
  let '(s2, ts2) := dispatch_long now s1 (queue_long s1) in
  (s2, ts1 ++ ts2).

(** [chat_completions] from the classification to its first suspension. *)
Definition chat_completions (now : Q) (body : Body) (request : Request)
           (w : World) : World :=
  let task_type := classify body in
  match try_get_worker now (scheduler w) task_type with
  | Some worker => process_request_begin worker (By_handler request) w
  | None =>
      let future := next_future w in
      let s := scheduler w in
      let s' := match task_type with
                | LONG =>
                    set_queue_long (queue_long s ++ [(future, body, request)]) s
                | SHORT =>
                    set_queue_short (queue_short s ++ [(future, body, request)]) s
                end in
      with_next_future (S future) (with_scheduler s' w)
  end.

(** Removal of the [k]-th element. *)
Fixpoint remove_at {A : Type} (k : nat) (l : list A) : list A :=
  match l, k with
  | [], _ => []
  | _ :: r, O => r
  | x :: r, S j => x :: remove_at j r
  end.

(** What can happen next in the process. *)
Inductive Event : Type :=
| Ev_request (now : Q) (body : Body) (request : Request)
| Ev_run_ready (now : Q)
| Ev_send_done (now : Q) (k : nat) (o : SendOutcome)
| Ev_qhap_tick (now : Q).

(** The event loop runs the oldest ready task up to its suspension. *)
Definition run_ready (now : Q) (w : World) : World :=
  match ready w with
  | [] => w
  | T_dispatch_queue :: rest =>
      let '(s', ts) := dispatch_queue now (scheduler w) in
      with_ready (rest ++ ts) (with_scheduler s' w)
  | T_run_task worker body req_obj future :: rest =>
      process_request_begin worker (By_run_task future) (with_ready rest w)
  end.

(** The [k]-th suspended forward resumes with outcome [o]. *)
Definition send_done (now : Q) (k : nat) (o : SendOutcome) (w : World)
  : World :=
  match nth_error (sending w) k with
  | None => w
  | Some fw =>
      let w := with_sending (remove_at k (sending w)) w in
      let '(w, c) := process_request_end now (fw_worker fw) o w in
      match fw_awaiter fw with
      | By_run_task future => run_task_end future c w
      | By_handler request => with_replies (replies w ++ [(request, c)]) w
      end
  end.

Definition step (e : Event) (w : World) : World :=
  match e with
  | Ev_request now body request => chat_completions now body request w
  | Ev_run_ready now => run_ready now w
  | Ev_send_done now k o => send_done now k o w
  | Ev_qhap_tick now => with_scheduler (qhap_tick now (scheduler w)) w
  end.

Definition run (evs : list Event) (w : World) : World :=
  fold_left (fun w e => step e w) evs w.

(** Process start at clock reading [t0]: the module-level
    [scheduler = AdaSplitScheduler()], nothing scheduled yet. *)
Definition World_init (t0 : Q) : World :=
  mkWorld (Scheduler_init t0) [] [] [] [] 0 [].

Inductive reachable : World -> Prop :=
| reachable_init : forall t0, reachable (World_init t0)
| reachable_step : forall w e, reachable w -> reachable (step e w).

(** Roles of the fleet, in the fixed worker order. *)
Definition roles (s : Scheduler) : list TaskType :=
  map current_role (workers s).

Definition count_calls (c : Call -> bool) (l : list Call) : Z :=
  Z.of_nat (List.length (filter c l)).
Definition is_inc (i : nat) (c : Call) : bool :=
  match c with Call_inc j => i =? j | Call_dec _ => false end.
Definition is_dec (i : nat) (c : Call) : bool :=
  match c with Call_dec j => i =? j | Call_inc _ => false end.

(** The queue entry a created task carries. *)
Definition task_entry (t : Task) : option Pending :=
  match t with
  | T_dispatch_queue => None
  | T_run_task _ body req_obj future => Some (future, body, req_obj)
  end.

Definition is_tick (e : Event) : bool :=
  match e with Ev_qhap_tick _ => true | _ => false end.

(** Positions grow along an enumeration, also after filtering. *)
Inductive ascending {A : Type} : list (nat * A) -> Prop :=
| ascending_nil : ascending []
| ascending_cons : forall p l,
    Forall (fun q => fst p < fst q) l -> ascending l -> ascending (p :: l).

(** ** The earlier variant, [tools/router_dynamic.py]

    The worker carries a busy flag instead of a counter; the admission
    policy takes the first idle home worker and steals under the same
    gate. *)
Module BusyFlag.

Record Worker : Type := mkWorker {
  id : nat;
  url : string;
  current_role : TaskType;
  is_busy : bool;
  last_active_time : Q
}.

Definition mark_busy (w : Worker) : Worker :=
  mkWorker (id w) (url w) (current_role w) true (last_active_time w).

Definition mark_idle (now : Q) (w : Worker) : Worker :=
  mkWorker (id w) (url w) (current_role w) false now.

Definition get_idle_duration (now : Q) (w : Worker) : Q :=
  if is_busy w then 0%Q else (now - last_active_time w)%Q.

Record Scheduler : Type := mkScheduler {
  workers : list Worker;
  queue_long : list Pending;
  queue_short : list Pending;
  last_rebalance_time : Q
}.

Fixpoint steal_loop (now : Q) (short_q_empty : bool)
         (ws : list (nat * Worker)) : option nat :=
  match ws with
  | [] => None
  | (i, w) :: rest =>
      if TaskType_eqb (current_role w) SHORT && negb (is_busy w) then
        if short_q_empty
           && Qlt_bool RASP_STEAL_COOLDOWN (get_idle_duration now w)
        then Some i
        else steal_loop now short_q_empty rest
      else steal_loop now short_q_empty rest
  end.

Definition try_get_worker (now : Q) (s : Scheduler) (task_type : TaskType)
  : option nat :=
  match filter (fun p => TaskType_eqb (current_role (snd p)) task_type
                         && negb (is_busy (snd p)))
               (enumerate (workers s)) with
  | c :: _ => Some (fst c)
  | [] =>
      match task_type with
      | LONG =>
          let short_q_empty := (List.length (queue_short s) =? 0) in
          steal_loop now short_q_empty (enumerate (workers s))
      | SHORT => None
      end
  end.

End BusyFlag.

(** Number of forwards in flight on the worker at position [i]. *)
Definition load (i : nat) (w : World) : Z :=
  Z.of_nat (List.length (filter (fun f => fw_worker f =? i) (sending w))).

(** Loads of the fleet, in the fixed worker order. *)
Definition actives (w : World) : list Z :=
  map active_requests (workers (scheduler w)).

(** For each worker the load is the number of its forwards in flight
    and the difference between the [inc_requests] and [dec_requests]
    calls made on it. *)
Definition accounted (w : World) : Prop :=
  forall i a,
    nth_error (actives w) i = Some a ->
    a = load i w
    /\ a = (count_calls (is_inc i) (calls w)
           - count_calls (is_dec i) (calls w))%Z.



(** What a coroutine awaiting [process_request] gets for a given end of
    [send]. *)
Definition completion_of (o : SendOutcome) : Completion :=
  match o with
  | Send_returns st => Returned (StreamingResponse st)
  | Send_raises e => Raised e
  end.

(** An event that is no tick, or a tick less than the cooldown after
    [t1]. *)
Definition within_cooldown (t1 : Q) (e : Event) : Prop :=
  match e with
  | Ev_qhap_tick t => (t - t1 < HAP_COOLDOWN)%Q
  | _ => True
  end.

(** ** The classification in the specification's words

    [estimate_cost]: the total character count of all [content] fields
    divided by 4; [request_class]: LONG above the threshold. *)

(** The character count of the [content] field of one message; a
    message without the field has no character to count. *)
Definition content_chars (m : Message) : nat :=
  match content m with
  | Some c => String.length c
  | None => 0
  end.

Definition total_content_chars (msgs : option (list Message)) : nat :=
  match msgs with
  | None => 0
  | Some ms => list_sum (map content_chars ms)
  end.

Definition estimate_cost (msgs : option (list Message)) : nat :=
  total_content_chars msgs / 4.

Definition request_class (threshold : nat) (body : Body) : TaskType :=
  if threshold <? estimate_cost (messages body) then LONG else SHORT.

(** ** Scenarios *)

Fixpoint text_of_length (n : nat) : string :=
  match n with
  | O => EmptyString
  | S k => String "a"%char (text_of_length k)
  end.

(** A short chat turn and a prompt of 12004 characters (3001 estimated
    tokens, just above the threshold). *)
Definition short_body : Body :=
  mkBody (Some [mkMessage (Some "Hello, tell me a short joke."%string)]).
Definition long_body : Body :=
  mkBody (Some [mkMessage (Some (text_of_length (4 * 3001)))]).

(** Eighteen short requests arrive at once: sixteen fill the two SHORT
    workers, two are queued.  One forward on worker 3 (position 2) then
    gets its response head, the scheduled [dispatch_queue] runs, and the
    two tasks it created start. *)
Definition overload_trace : list Event :=
  map (fun r => Ev_request 0 short_body r) (seq 0 18)
  ++ [ Ev_send_done 1 0 (Send_returns 200);
       Ev_run_ready 1; Ev_run_ready 1; Ev_run_ready 1 ].

(** Twenty-seven long requests arrive at once: sixteen fill the two LONG
    workers, eleven are queued (the SHORT workers have not been idle for
    the steal cooldown). *)
Definition backlog_trace : list Event :=
  map (fun r => Ev_request 0 long_body r) (seq 0 27).
Definition backlog_world : World := run backlog_trace (World_init 0).

(** Seventeen short requests arrive at once, the last one is queued
    (future 0); a forward on worker 3 ends, [dispatch_queue] places the
    queued request and its [run_task] starts forwarding: it is the
    forward at position 15. *)
Definition queued_forward_trace : list Event :=
  map (fun r => Ev_request 0 short_body r) (seq 0 17)
  ++ [ Ev_send_done 1 0 (Send_returns 200); Ev_run_ready 1; Ev_run_ready 1 ].
Definition queued_forward_world : World :=
  run queued_forward_trace (World_init 0).

(** Worker 3 as it stands in [backlog_world]: SHORT, no request, idle
    since the start. *)
Definition stolen_worker : Worker :=
  mkWorker 3 "http://localhost:8003/v1/chat/completions" SHORT 0 0.

(** ** Claims in their stated form, for the ones the code refutes *)


(** [last_active_time] is written by [dec_requests] exactly on the
    transition from one active request to none. *)
Definition idle_stamp_only_on_one_to_zero (now : Q) (w : Worker) : Prop :=
  (active_requests w = 1%Z ->
   last_active_time (dec_requests now w) = now) /\
  (active_requests w <> 1%Z ->
   last_active_time (dec_requests now w) = last_active_time w).

(** A forward ends in failure when [send] raises or the backend answers
    outside the 2xx range. *)
Definition forwarding_failed (o : SendOutcome) : Prop :=
  match o with
  | Send_raises _ => True
  | Send_returns st => st < 200 \/ 300 <= st
  end.

(** The future of a queued request is resolved with a failure whenever
    its forward failed. *)
Definition failure_reaches_future (now : Q) (k : nat) (o : SendOutcome)
           (w : World) : Prop :=
  forall fw future,
    nth_error (sending w) k = Some fw ->
    fw_awaiter fw = By_run_task future ->
    forwarding_failed o ->
    exists e, In (future, Raised e) (futures (send_done now k o w)).

(** ** Predicates of the admission policy *)

(** A worker of role [c] with a free slot: the filter of the home
    placement. *)
Definition home_free (c : TaskType) (w : Worker) : bool :=
  TaskType_eqb (current_role w) c && can_accept w.

(** A SHORT worker with a free slot that has been idle for more than
    the steal cooldown: what the stealing loop looks for once the SHORT
    queue is empty. *)
Definition stealable (now : Q) (w : Worker) : bool :=
  TaskType_eqb (current_role w) SHORT && can_accept w
  && Qlt_bool RASP_STEAL_COOLDOWN (get_idle_duration now w).

(** After the scale-up of [backlog_world] at 5 s, one forward on worker
    1 ends at 6 s and the scheduled [dispatch_queue] runs: the LONG
    queue is served. *)
Definition drained_world : World :=
  run [Ev_qhap_tick 5; Ev_send_done 6 0 (Send_returns 200); Ev_run_ready 6]
      backlog_world.

(** The tasks [dispatch_queue] creates when it places every entry of
    [q] on the worker at position [i]. *)
Definition run_tasks_on (i : nat) (q : list Pending) : list Task :=
  map (fun p => T_run_task i (snd (fst p)) (snd p) (fst (fst p))) q.

(** ** Limits and stages, for the properties of the event loop *)

(** Every load is within the concurrency limit. *)
Definition within_limit (w : World) : Prop :=
  Forall (fun a => (a <= WORKER_CONCURRENCY_LIMIT)%Z) (actives w).

(** The event starts a [run_task] created by [dispatch_queue]. *)
Definition starts_run_task (e : Event) (w : World) : bool :=
  match e, ready w with
  | Ev_run_ready _, T_run_task _ _ _ _ :: _ => true
  | _, _ => false
  end.

(** Where the future of a queued request can be: in a wait queue, in a
    created [run_task] that has not started, in a forward in flight, or
    resolved. *)
Definition pending_future (p : Pending) : Future := fst (fst p).

Definition task_futures (t : Task) : list Future :=
  match t with
  | T_run_task _ _ _ future => [future]
  | T_dispatch_queue => []
  end.

Definition forward_futures (fw : Forward) : list Future :=
  match fw_awaiter fw with
  | By_run_task future => [future]
  | By_handler _ => []
  end.

Definition occ (f : Future) (l : list Future) : nat :=
  count_occ Nat.eq_dec l f.

Definition resolved_futures (w : World) : list Future :=
  map fst (futures w).

(** In how many places future [f] is. *)
Definition stage_count (f : Future) (w : World) : nat :=
  occ f (map pending_future (queue_short (scheduler w)))
  + occ f (map pending_future (queue_long (scheduler w)))
  + occ f (flat_map task_futures (ready w))
  + occ f (flat_map forward_futures (sending w))
  + occ f (resolved_futures w).

(** ** The static baseline, [tools/router_static.py] *)
Module StaticRouter.

(** The [for m in messages: txt += m.get("content", "")] loop. *)
Fixpoint concat_contents (txt : string) (msgs : list Message) : string :=
  match msgs with
  | [] => txt
  | m :: rest => concat_contents (txt ++ content_str m) rest
  end.

Definition estimate_token_count (msgs : list Message) : nat :=
  String.length (concat_contents EmptyString msgs) / 4.

(** [body.get("messages", [])] *)
Definition body_messages (body : Body) : list Message :=
  match messages body with
  | Some ms => ms
  | None => []
  end.

(** The routing decision of [chat_completions]: the target URL and the
    log tag.  The two URLs and the threshold come from the environment
    and are arguments here. *)
Definition route (URL_PREFILL_WORKER URL_DECODE_WORKER : string)
           (LENGTH_THRESHOLD : nat) (body : Body) : string * string :=
  let input_len := estimate_token_count (body_messages body) in
  if LENGTH_THRESHOLD <? input_len
  then (URL_PREFILL_WORKER, "[LONG -> A]"%string)
  else (URL_DECODE_WORKER, "[SHORT -> B]"%string).

End StaticRouter.

(** ** The monitoring baseline, [tools/router_smart.py] *)
Module SmartRouter.

(** The loop body: [content = m.get("content")] and
    [if content: txt += str(content)]; a missing or empty content adds
    nothing. *)
Fixpoint concat_contents (txt : string) (msgs : list Message) : string :=
  match msgs with
  | [] => txt
  | m :: rest =>
      match content m with
      | Some (String c r) => concat_contents (txt ++ String c r) rest
      | Some EmptyString => concat_contents txt rest
      | None => concat_contents txt rest
      end
  end.

(** [if not messages or not isinstance(messages, list): return 0] *)
Definition estimate_token_count (msgs : option (list Message)) : nat :=
  match msgs with
  | None => 0
  | Some [] => 0
  | Some ms => String.length (concat_contents EmptyString ms) / 4
  end.

End SmartRouter.

(** ** Workload generators and the benchmark client

    [tools/workload_gen.py], [tools/workloads/gen_real_trace.py],
    [tools/gen_verify_trace.py] build the prompts and
    [tools/benchmark_client.py] sends each as the content of one user
    message. *)
Module Workload.

(** [s * n] *)
Fixpoint repeat_str (s : string) (n : nat) : string :=
  match n with
  | O => EmptyString
  | S k => (s ++ repeat_str s k)%string
  end.

(** [s[:n]] for a length [n] that is not negative. *)
Fixpoint slice_to (n : nat) (s : string) : string :=
  match n, s with
  | S k, String c r => String c (slice_to k r)
  | _, _ => EmptyString
  end.

Definition BASE_TEXT : string :=
  repeat_str "The quick brown fox jumps over the lazy dog. " 2000.

(** [get_dummy_prompt]; [uuid] is the text of [uuid.uuid4()]. *)
Definition get_dummy_prompt (uuid : string) (token_len : nat) : string :=
  let random_header :=
    repeat_str ("Random Task ID " ++ uuid ++ ": ")%string 20 in
  let char_len := (Z.of_nat token_len * 4)%Z in
  let remaining_len :=
    Z.max 0 (char_len - Z.of_nat (String.length random_header)) in
  let body :=
    if (remaining_len >? 0)%Z then
      if (remaining_len >? Z.of_nat (String.length BASE_TEXT))%Z then
        slice_to (Z.to_nat remaining_len)
          (repeat_str BASE_TEXT
             (Z.to_nat
                (remaining_len / Z.of_nat (String.length BASE_TEXT) + 1)))
      else slice_to (Z.to_nat remaining_len) BASE_TEXT
    else EmptyString in
  (random_header ++ body)%string.

(** The prompt of [generate_verification_trace]. *)
Definition verification_prompt (prompt_len : nat) : string :=
  let char_len := prompt_len * 4 in
  slice_to char_len
    (repeat_str BASE_TEXT (char_len / String.length BASE_TEXT + 1)).

(** The part of [send_request]'s payload the router reads:
    [{"messages": [{"role": "user", "content": prompt}], ...}]. *)
Definition payload (prompt : string) : Body :=
  mkBody (Some [mkMessage (Some prompt)]).

End Workload.

(** ** Prompts taken from the local data sets,
    [tools/workloads/gen_real_trace.py] *)
Module RealTrace.

(** One turn of a ShareGPT conversation: [turn.get("from")] and
    [turn.get("value", "")]. *)
Record Turn : Type := mkTurn {
  turn_from : option string;
  turn_value : option string
}.

(** The inner loop: the value of the first turn that comes from
    ["human"], the empty string when there is none. *)
Fixpoint first_human_value (convs : list Turn) : string :=
  match convs with
  | [] => EmptyString
  | turn :: rest =>
      match turn_from turn with
      | Some f =>
          if String.eqb f "human"
          then match turn_value turn with
               | Some v => v
               | None => EmptyString
               end
          else first_human_value rest
      | None => first_human_value rest
      end
  end.

(** The ShareGPT loop of [load_local_data]; an item is its list of
    conversations ([item.get("conversations", [])]). *)
Fixpoint load_sharegpt (data : list (list Turn))
         (sharegpt_prompts : list string) : list string :=
  match data with
  | [] => sharegpt_prompts
  | convs :: rest =>
      match convs with
      | [] => load_sharegpt rest sharegpt_prompts
      | _ :: _ =>
          let prompt := first_human_value convs in
          let sharegpt_prompts :=
            if match prompt with EmptyString => false | String _ _ => true end
               && (Z.of_nat (String.length prompt) <? 2000)%Z
            then sharegpt_prompts ++ [prompt]
            else sharegpt_prompts in
          if (5000 <=? Z.of_nat (List.length sharegpt_prompts))%Z
          then sharegpt_prompts
          else load_sharegpt rest sharegpt_prompts
      end
  end.

(** One line of the LongBench file: [item.get("context", "")] and
    [item.get("input", "")]. *)
Record Item : Type := mkItem {
  item_context : string;
  item_input : string
}.

Definition newline : string := String "010"%char EmptyString.

(** [f"Context: {context}\n\nQuestion: {inp}"], cut at 32000
    characters. *)
Definition full_prompt (item : Item) : string :=
  let p := ("Context: " ++ item_context item ++ newline ++ newline
            ++ "Question: " ++ item_input item)%string in
  if (Z.of_nat (String.length p) >? 32000)%Z
  then Workload.slice_to (Z.to_nat 32000) p
  else p.

(** The LongBench loop of [load_local_data]. *)
Fixpoint load_longbench (lines : list Item) (longbench_prompts : list string)
         (count : Z) : list string :=
  match lines with
  | [] => longbench_prompts
  | item :: rest =>
      let p := full_prompt item in
      let keep := (Z.of_nat (String.length p) >? 5000)%Z in
      let longbench_prompts :=
        if keep then longbench_prompts ++ [p] else longbench_prompts in
      let count := if keep then (count + 1)%Z else count in
      if (1000 <=? count)%Z then longbench_prompts
      else load_longbench rest longbench_prompts count
  end.

End RealTrace.

(** ** The sliding-window monitor of [tools/router_smart.py] *)
Module Monitor.

(** [history] holds [(timestamp, token_len)] pairs, oldest first. *)
Record TrafficMonitor : Type := mkMonitor {
  window : Z;
  history : list (Q * nat);
  total_reqs : nat
}.

Definition init (window_seconds : Z) : TrafficMonitor :=
  mkMonitor window_seconds [] 0.

(** The [while] loop of [_cleanup]: pop from the left while the head is
    older than the window. *)
Fixpoint drop_expired (window : Z) (now : Q) (h : list (Q * nat))
  : list (Q * nat) :=
  match h with
  | [] => []
  | (t, n) :: rest =>
      if Qlt_bool (inject_Z window) (now - t)
      then drop_expired window now rest
      else h
  end.

Definition _cleanup (now : Q) (m : TrafficMonitor) : TrafficMonitor :=
  mkMonitor (window m) (drop_expired (window m) now (history m))
            (total_reqs m).

Definition record_request (now : Q) (token_len : nat) (m : TrafficMonitor)
  : TrafficMonitor :=
  _cleanup now
    (mkMonitor (window m) (history m ++ [(now, token_len)])
               (S (total_reqs m))).

(** Timestamps never decrease along the history and none is later than
    [now]. *)
Fixpoint chronological (now : Q) (h : list (Q * nat)) : Prop :=
  match h with
  | [] => True
  | (t, _) :: rest =>
      (t <= now)%Q /\ Forall (fun e => (t <= fst e)%Q) rest
      /\ chronological now rest
  end.

(** The entry is not older than the window. *)
Definition in_window (window : Z) (now : Q) (e : Q * nat) : bool :=
  negb (Qlt_bool (inject_Z window) (now - fst e)).

End Monitor.

(** Seventeen short requests arrive at once, the last one is queued;
    a forward on worker 3 has just ended and the [dispatch_queue] it
    scheduled has not run yet: worker 3 has a free slot while a request
    waits in the SHORT queue. *)
Definition released_world : World :=
  run (map (fun r => Ev_request 0 short_body r) (seq 0 17)
       ++ [Ev_send_done 1 0 (Send_returns 200)])
      (World_init 0).

(** ** The dispatch loop with a clock reading per iteration

    [get_idle_duration] calls [time.time()] itself, so every
    [try_get_worker] call of the second loop of [dispatch_queue] has a
    clock reading of its own: [clock k] is the reading of the [k]-th
    iteration.  The first loop places SHORT requests and never reads the
    clock.  [dispatch_queue now] is the case where all readings are
    [now]. *)

Fixpoint dispatch_long_at (clock : nat -> Q) (s : Scheduler)
         (q : list Pending) : Scheduler * list Task :=
  match q with
  | [] => (set_queue_long [] s, [])
  | (task_future, body, req_obj) :: q' =>
      match try_get_worker (clock 0) (set_queue_long q s) LONG with
      | Some worker =>
          let '(s', ts) := dispatch_long_at (fun k => clock (S k)) s q' in
          (s', T_run_task worker body req_obj task_future :: ts)
      | None => (set_queue_long q s, [])
      end
  end.

Definition dispatch_queue_at (clock : nat -> Q) (s : Scheduler)
  : Scheduler * list Task :=
  let '(s1, ts1) := dispatch_short (clock 0) s (queue_short s) in
  let '(s2, ts2) := dispatch_long_at clock s1 (queue_long s1) in
  (s2, ts1 ++ ts2).

(** The worker a created task will forward to. *)
Definition task_worker (t : Task) : option nat :=
  match t with
  | T_dispatch_queue => None
  | T_run_task worker _ _ _ => Some worker
  end.

(** The event runs a scheduled [dispatch_queue]. *)
Definition runs_drain (e : Event) (w : World) : bool :=
  match e, ready w with
  | Ev_run_ready _, T_dispatch_queue :: _ => true
  | _, _ => false
  end.

(** The scheduler of [released_world]: the SHORT queue holds one
    request and worker 3 has a free slot. *)
Definition released_scheduler : Scheduler := scheduler released_world.

(** Both LONG workers are full, two LONG requests wait, the SHORT queue
    is empty; worker 4 has been idle since 0.5 s and worker 3 since
    1.000001 s. *)
Definition staggered_scheduler : Scheduler :=
  mkScheduler
    [ mkWorker 1 "http://localhost:8001/v1/chat/completions" LONG 8 0;
      mkWorker 2 "http://localhost:8002/v1/chat/completions" LONG 8 0;
      mkWorker 3 "http://localhost:8003/v1/chat/completions" SHORT 0
               (1000001 # 1000000);
      mkWorker 4 "http://localhost:8004/v1/chat/completions" SHORT 0
               (1 # 2) ]
    [(0, long_body, 16); (1, long_body, 17)] [] 0.

(** The first iteration reads 3 s, the later ones 3.000002 s. *)
Definition staggered_clock (k : nat) : Q :=
  match k with
  | O => 3
  | S _ => 3000002 # 1000000
  end.

(** After the scale-up of [backlog_world] at 5 s a forward on worker 1
    has ended at 6 s: eleven LONG requests wait, workers 1 and 3 are
    LONG workers with a free slot. *)
Definition relieved_scheduler : Scheduler :=
  scheduler
    (run [Ev_qhap_tick 5; Ev_send_done 6 0 (Send_returns 200)] backlog_world).

(** * Properties *)

(** ** Basic facts *)

Lemma Qlt_bool_iff (a b : Q) : Qlt_bool a b = true <-> (a < b)%Q.
Proof.
  unfold Qlt_bool. rewrite negb_true_iff. split; intro H.
  - apply Qnot_le_lt. intro Hle. apply Qle_bool_iff in Hle. congruence.
  - destruct (Qle_bool b a) eqn:E; [|reflexivity].
    apply Qle_bool_iff in E. exfalso. apply (Qlt_not_le _ _ H E).
Qed.

Lemma TaskType_eqb_eq (a b : TaskType) : TaskType_eqb a b = true <-> a = b.
Proof. destruct a, b; simpl; split; congruence. Qed.

Lemma TaskType_eqb_refl (a : TaskType) : TaskType_eqb a a = true.
Proof. destruct a; reflexivity. Qed.

Lemma length_append (a b : string) :
  String.length (a ++ b)%string = String.length a + String.length b.
Proof. induction a as [|c a IH]; simpl; [reflexivity | now rewrite IH]. Qed.

Lemma length_join (parts : list string) :
  String.length (join parts) = list_sum (map String.length parts).
Proof.
  induction parts as [|p parts IH]; simpl; [reflexivity|].
  now rewrite length_append, IH.
Qed.

Lemma content_chars_sum (ms : list Message) :
  list_sum (map (fun m => String.length (content_str m)) ms)
  = list_sum (map content_chars ms).
Proof.
  f_equal. apply map_ext. intro m. unfold content_str, content_chars.
  now destruct (content m).
Qed.

Lemma estimate_token_count_cost (msgs : option (list Message)) :
  estimate_token_count msgs = estimate_cost msgs.
Proof.
  unfold estimate_cost, total_content_chars.
  destruct msgs as [[|m ms]|]; try reflexivity.
  unfold estimate_token_count.
  now rewrite length_join, map_map, content_chars_sum.
Qed.

(** ** Classification *)

(** C10: the class used by [chat_completions] is LONG exactly when the
    total character count of the messages' content fields, divided by 4
    with integer division, exceeds 3000 (the estimate is 0 for an empty
    or absent list); it is computed once, and the admission either
    places the request as that class or appends it to that class's
    queue, leaving the other queue alone. *)
Theorem classification_at_admission (now : Q) (body : Body) (request : Request)
        (w : World) :
  estimate_token_count (messages body) = total_content_chars (messages body) / 4
  /\ estimate_token_count None = 0
  /\ estimate_token_count (Some []) = 0
  /\ classify body = request_class 3000 body
  /\ (classify body = LONG <-> 3000 < total_content_chars (messages body) / 4)
  /\ match try_get_worker now (scheduler w) (classify body) with
     | Some worker =>
         chat_completions now body request w
         = process_request_begin worker (By_handler request) w
     | None =>
         let s' := scheduler (chat_completions now body request w) in
         match classify body with
         | LONG =>
             queue_long s'
             = queue_long (scheduler w) ++ [(next_future w, body, request)]
             /\ queue_short s' = queue_short (scheduler w)
         | SHORT =>
             queue_short s'
             = queue_short (scheduler w) ++ [(next_future w, body, request)]
             /\ queue_long s' = queue_long (scheduler w)
         end
     end.
Proof.
  assert (Hc : classify body = request_class 3000 body).
  { unfold classify, request_class.
    now rewrite estimate_token_count_cost. }
  repeat split; try reflexivity; try exact Hc.
  - apply estimate_token_count_cost.
  - rewrite Hc. unfold request_class, estimate_cost.
    destruct (3000 <? _) eqn:E; [intros _; now apply Nat.ltb_lt | discriminate].
  - rewrite Hc. unfold request_class, estimate_cost. intro H.
    apply Nat.ltb_lt in H. now rewrite H.
  - unfold chat_completions.
    destruct (try_get_worker now (scheduler w) (classify body));
      [reflexivity|].
    destruct (classify body); simpl; split; reflexivity.
Qed.

(** ** Worker bookkeeping *)

(** C8 (as the code has it): [dec_requests] decrements
    [active_requests] by one, floored at zero, and writes
    [last_active_time] exactly when the count after the decrement is
    zero, that is when it was at most one before; all other fields stay.
    [get_idle_duration] is 0 while requests are active and
    [now - last_active_time] otherwise. *)
Theorem dec_requests_idle_stamp (now : Q) (w : Worker) :
  active_requests (dec_requests now w) = Z.max 0 (active_requests w - 1)
  /\ last_active_time (dec_requests now w)
     = (if (active_requests w <=? 1)%Z then now else last_active_time w)
  /\ current_role (dec_requests now w) = current_role w
  /\ ((0 < active_requests w)%Z -> get_idle_duration now w = 0%Q)
  /\ ((active_requests w <= 0)%Z ->
      get_idle_duration now w = (now - last_active_time w)%Q).
Proof.
  unfold dec_requests, get_idle_duration; simpl.
  repeat split.
  - destruct (Z.leb_spec (active_requests w) 1);
      destruct (Z.eqb_spec (Z.max 0 (active_requests w - 1)) 0);
      try reflexivity; lia.
  - intro H. destruct (Z.gtb_spec (active_requests w) 0); [reflexivity | lia].
  - intro H. destruct (Z.gtb_spec (active_requests w) 0); [lia | reflexivity].
Qed.

Lemma dec_requests_idle_stamp_witness :
  get_idle_duration 7 (Worker_init 1 "u" 3) = (7 - 3)%Q.
Proof.
  apply (dec_requests_idle_stamp 7 (Worker_init 1 "u" 3)).
  simpl. lia.
Defined.

(** C8 as stated fails on a worker that is already at zero: the floor
    keeps the count at zero and the idle stamp is written again. *)
Lemma idle_stamp_at_zero :
  ~ idle_stamp_only_on_one_to_zero 7 (Worker_init 1 "u" 3).
Proof.
  unfold idle_stamp_only_on_one_to_zero. intros [_ H].
  assert (Hne : active_requests (Worker_init 1 "u" 3) <> 1%Z)
    by (simpl; lia).
  specialize (H Hne). vm_compute in H. discriminate H.
Qed.

(** ** Positions and enumeration *)

Lemma in_enumerate_from {A : Type} (l : list A) (k i : nat) (x : A) :
  In (i, x) (enumerate_from k l) <-> k <= i /\ nth_error l (i - k) = Some x.
Proof.
  revert k. induction l as [|y l IH]; intro k; simpl.
  - split; [tauto|]. intros [_ H]. now destruct (i - k).
  - rewrite IH. split.
    + intros [H | [Hle H]].
      * inversion H; subst. rewrite Nat.sub_diag. split; [lia | reflexivity].
      * split; [lia|]. replace (i - k) with (S (i - S k)) by lia. exact H.
    + intros [Hle H]. destruct (i - k) as [|d] eqn:E.
      * left. inversion H; subst. f_equal. lia.
      * right. split; [lia|]. replace (i - S k) with d by lia. exact H.
Qed.

Lemma in_enumerate {A : Type} (l : list A) (i : nat) (x : A) :
  In (i, x) (enumerate l) <-> nth_error l i = Some x.
Proof.
  unfold enumerate. rewrite in_enumerate_from, Nat.sub_0_r.
  split; [tauto | intro; split; [lia | assumption]].
Qed.

Lemma ascending_enumerate_from {A : Type} (l : list A) (k : nat) :
  ascending (enumerate_from k l).
Proof.
  revert k. induction l as [|x l IH]; intro k; simpl; constructor.
  - apply Forall_forall. intros [i y] Hin.
    apply in_enumerate_from in Hin. simpl. lia.
  - apply IH.
Qed.

Lemma ascending_filter {A : Type} (f : nat * A -> bool) (l : list (nat * A)) :
  ascending l -> ascending (filter f l).
Proof.
  induction 1 as [|p l Hall Hasc IH]; simpl; [constructor|].
  destruct (f p); [|exact IH].
  constructor; [|exact IH].
  apply Forall_forall. intros q Hq. apply filter_In in Hq.
  rewrite Forall_forall in Hall. apply Hall, Hq.
Qed.

Lemma ascending_split {A : Type} (l1 l2 : list (nat * A)) (m : nat * A) :
  ascending (l1 ++ m :: l2) -> Forall (fun q => fst m < fst q) l2.
Proof.
  induction l1 as [|p l1 IH]; simpl; intro H; inversion H; subst; auto.
Qed.

(** ** Python's [min] with a key *)

(** The result splits the argument list: strictly larger keys before
    it, keys at least as large after it. *)
Lemma min_by_key_first {A : Type} (key : A -> Z) (xs : list A) (b m : A) :
  min_by_key key b xs = m ->
  exists l1 l2,
    b :: xs = l1 ++ m :: l2
    /\ Forall (fun x => (key m < key x)%Z) l1
    /\ Forall (fun x => (key m <= key x)%Z) l2.
Proof.
  revert b. induction xs as [|y r IH]; intros b Hm; simpl in Hm.
  - subst m. exists [], []. repeat split; constructor.
  - destruct (Z.ltb_spec (key y) (key b)) as [Hlt | Hge].
    + destruct (IH y Hm) as (l1 & l2 & Heq & H1 & H2).
      exists (b :: l1), l2. repeat split; try assumption.
      * simpl. now rewrite <- Heq.
      * constructor; [|assumption].
        destruct l1 as [|z l1]; simpl in Heq; injection Heq as Hz Hr.
        -- rewrite <- Hz. exact Hlt.
        -- rewrite <- Hz in H1. inversion H1; subst. lia.
    + destruct (IH b Hm) as (l1 & l2 & Heq & H1 & H2).
      destruct l1 as [|z l1]; simpl in Heq; injection Heq as Hz Hr.
      * exists [], (y :: l2). repeat split.
        -- simpl. now rewrite <- Hz, <- Hr.
        -- constructor.
        -- constructor; [|assumption]. rewrite <- Hz. exact Hge.
      * exists (z :: y :: l1), l2. repeat split.
        -- simpl. now rewrite <- Hz, Hr.
        -- rewrite <- Hz in *. inversion H1; subst.
           constructor; [assumption|]. constructor; [lia | assumption].
        -- assumption.
Qed.

(** ** Admission policy *)

Lemma in_home_candidates (c : TaskType) (s : Scheduler) (i : nat) (w : Worker) :
  In (i, w) (home_candidates c s)
  <-> nth_error (workers s) i = Some w
      /\ current_role w = c /\ can_accept w = true.
Proof.
  unfold home_candidates. rewrite filter_In, in_enumerate. simpl.
  rewrite andb_true_iff, TaskType_eqb_eq. tauto.
Qed.

Lemma ascending_home_candidates (c : TaskType) (s : Scheduler) :
  ascending (home_candidates c s).
Proof. apply ascending_filter, ascending_enumerate_from. Qed.

Lemma steal_loop_some (now : Q) (b : bool) (l : list (nat * Worker)) (i : nat) :
  steal_loop now b l = Some i ->
  exists w, In (i, w) l
            /\ current_role w = SHORT /\ can_accept w = true
            /\ b = true
            /\ (RASP_STEAL_COOLDOWN < get_idle_duration now w)%Q.
Proof.
  induction l as [|[j w] l IH]; simpl; [discriminate|].
  destruct (TaskType_eqb (current_role w) SHORT && can_accept w) eqn:E1.
  - destruct (b && Qlt_bool RASP_STEAL_COOLDOWN (get_idle_duration now w))
      eqn:E2.
    + intro H. injection H as <-. exists w.
      apply andb_true_iff in E1 as [Er Ec].
      apply andb_true_iff in E2 as [Eb Et].
      apply TaskType_eqb_eq in Er. apply Qlt_bool_iff in Et.
      repeat split; auto.
    + intro H. destruct (IH H) as (w' & Hin & Hrest).
      exists w'. split; [now right | exact Hrest].
  - intro H. destruct (IH H) as (w' & Hin & Hrest).
    exists w'. split; [now right | exact Hrest].
Qed.

(** Every worker [try_get_worker] returns is either a home placement
    with free capacity or a gated steal by a LONG request. *)
Lemma try_get_worker_cases (now : Q) (s : Scheduler) (c : TaskType)
      (i : nat) (wi : Worker) :
  try_get_worker now s c = Some i ->
  nth_error (workers s) i = Some wi ->
  can_accept wi = true
  /\ (current_role wi = c
      \/ (c = LONG /\ current_role wi = SHORT /\ queue_short s = []
          /\ (RASP_STEAL_COOLDOWN < get_idle_duration now wi)%Q)).
Proof.
  unfold try_get_worker. intros Hres Hnth.
  destruct (home_candidates c s) as [|c0 cs] eqn:Hc.
  - destruct c; [|discriminate].
    apply steal_loop_some in Hres as (w & Hin & Hr & Hcap & Hq & Ht).
    apply in_enumerate in Hin. rewrite Hnth in Hin. injection Hin as <-.
    split; [assumption|]. right. repeat split; try assumption.
    apply Nat.eqb_eq in Hq. now destruct (queue_short s).
  - injection Hres as Hi.
    destruct (min_by_key_first (fun p => active_requests (snd p)) cs c0 _ eq_refl)
      as (l1 & l2 & Heq & _ & _).
    set (m := min_by_key (fun p => active_requests (snd p)) c0 cs) in *.
    assert (Hin : In m (home_candidates c s)).
    { rewrite Hc, Heq. apply in_elt. }
    destruct m as [k wk]. simpl in Hi. subst k.
    apply in_home_candidates in Hin as (Hn & Hr & Hcap).
    rewrite Hnth in Hn. injection Hn as <-. split; [assumption | now left].
Qed.

(** C4: a worker returned by [try_get_worker] has a role other than the
    requested class only for a LONG request, with the SHORT queue empty
    and the worker idle for strictly more than the steal cooldown; a
    SHORT request never gets a LONG worker, and with a non-empty SHORT
    queue, or with an idle duration not above the cooldown, a LONG
    request does not get that SHORT worker. *)
Theorem steal_gating (now : Q) (s : Scheduler) (c : TaskType)
        (i : nat) (wi : Worker) :
  try_get_worker now s c = Some i ->
  nth_error (workers s) i = Some wi ->
  (current_role wi <> c ->
   c = LONG /\ queue_short s = []
   /\ (2 < get_idle_duration now wi)%Q)
  /\ (c = SHORT -> current_role wi = SHORT)
  /\ (c = LONG -> queue_short s <> [] -> current_role wi = LONG)
  /\ (c = LONG -> ~ (2 < get_idle_duration now wi)%Q ->
      current_role wi = LONG).
Proof.
  intros Hres Hnth.
  destruct (try_get_worker_cases now s c i wi Hres Hnth)
    as [_ [Hhome | (Hc & Hr & Hq & Ht)]].
  - repeat split; intros; congruence.
  - change RASP_STEAL_COOLDOWN with 2%Q in Ht.
    repeat split; intros; try congruence; try tauto.
Qed.

Lemma steal_gating_witness :
  queue_short (scheduler backlog_world) = []
  /\ (2 < get_idle_duration 3 stolen_worker)%Q.
Proof.
  destruct (steal_gating 3 (scheduler backlog_world) LONG 2 stolen_worker)
    as (H & _).
  - vm_compute. reflexivity.
  - vm_compute. reflexivity.
  - destruct H as (_ & Hq & Ht); [simpl; discriminate|].
    split; assumption.
Defined.

(** C5: when some worker of the requested role has free capacity,
    [try_get_worker] returns a worker of that role with free capacity
    whose load is minimal among them, and the earliest such worker in
    the fixed order. *)
Theorem home_first_least_loaded (now : Q) (s : Scheduler) (c : TaskType)
        (j : nat) (wj : Worker) :
  nth_error (workers s) j = Some wj ->
  current_role wj = c ->
  can_accept wj = true ->
  exists i wi,
    try_get_worker now s c = Some i
    /\ nth_error (workers s) i = Some wi
    /\ current_role wi = c
    /\ can_accept wi = true
    /\ forall k wk,
         nth_error (workers s) k = Some wk ->
         current_role wk = c ->
         can_accept wk = true ->
         (active_requests wi <= active_requests wk)%Z
         /\ (active_requests wk = active_requests wi -> i <= k).
Proof.
  intros Hnth Hr Hcap.
  assert (Hj : In (j, wj) (home_candidates c s))
    by (apply in_home_candidates; auto).
  unfold try_get_worker.
  destruct (home_candidates c s) as [|c0 cs] eqn:Hc; [destruct Hj|].
  destruct (min_by_key_first (fun p => active_requests (snd p)) cs c0 _ eq_refl)
    as (l1 & l2 & Heq & H1 & H2).
  set (m := min_by_key (fun p => active_requests (snd p)) c0 cs) in *.
  assert (Hasc : ascending (l1 ++ m :: l2)).
  { rewrite <- Heq, <- Hc. apply ascending_home_candidates. }
  assert (Hm : In m (home_candidates c s)).
  { rewrite Hc, Heq. apply in_elt. }
  destruct m as [i wi].
  apply in_home_candidates in Hm as (Hn & Hri & Hci).
  exists i, wi. repeat split; try assumption.
  - intros. assert (Hk : In (k, wk) (home_candidates c s))
      by (apply in_home_candidates; auto).
    rewrite Hc, Heq in Hk. apply in_app_or in Hk as [Hk | [Hk | Hk]].
    + rewrite Forall_forall in H1. specialize (H1 _ Hk). simpl in H1. lia.
    + injection Hk as -> ->. lia.
    + rewrite Forall_forall in H2. specialize (H2 _ Hk). simpl in H2. lia.
  - intros Heqk. assert (Hk : In (k, wk) (home_candidates c s))
      by (apply in_home_candidates; auto).
    rewrite Hc, Heq in Hk. apply in_app_or in Hk as [Hk | [Hk | Hk]].
    + rewrite Forall_forall in H1. specialize (H1 _ Hk). simpl in H1. lia.
    + injection Hk as -> ->. lia.
    + apply ascending_split in Hasc. rewrite Forall_forall in Hasc.
      specialize (Hasc _ Hk). simpl in Hasc. lia.
Qed.

Lemma home_first_least_loaded_witness :
  exists i wi,
    try_get_worker 0 (Scheduler_init 0) SHORT = Some i
    /\ nth_error (workers (Scheduler_init 0)) i = Some wi
    /\ current_role wi = SHORT.
Proof.
  destruct (home_first_least_loaded 0 (Scheduler_init 0) SHORT 3
              (mkWorker 4 "http://localhost:8004/v1/chat/completions"
                        SHORT 0 0))
    as (i & wi & H1 & H2 & H3 & _); try reflexivity.
  exists i, wi. repeat split; assumption.
Defined.

(** ** The rebalancer tick *)

Lemma first_with_role_some (r : TaskType) (l : list (nat * Worker)) (t : nat) :
  first_with_role r l = Some t ->
  exists w, In (t, w) l /\ current_role w = r.
Proof.
  induction l as [|[i w] l IH]; simpl; [discriminate|].
  destruct (TaskType_eqb (current_role w) r) eqn:E.
  - intro H. injection H as <-. exists w.
    split; [now left | now apply TaskType_eqb_eq].
  - intro H. destruct (IH H) as (w' & Hin & Hr). exists w'. auto.
Qed.

Lemma alter_at_split {A : Type} (f : A -> A) (l1 l2 : list A) (x : A) :
  alter_at f (List.length l1) (l1 ++ x :: l2) = l1 ++ f x :: l2.
Proof. induction l1 as [|y l1 IH]; simpl; [reflexivity | now rewrite IH]. Qed.

Lemma count_role_split (r : TaskType) (l1 l2 : list Worker) (x : Worker) :
  count_role r (l1 ++ x :: l2)
  = count_role r l1 + (if TaskType_eqb (current_role x) r then 1 else 0)
    + count_role r l2.
Proof.
  unfold count_role. rewrite filter_app, length_app. simpl.
  destruct (TaskType_eqb (current_role x) r); simpl; lia.
Qed.

Lemma count_role_total (ws : list Worker) :
  count_role LONG ws + count_role SHORT ws = List.length ws.
Proof.
  unfold count_role. induction ws as [|w ws IH]; simpl; [reflexivity|].
  destruct (current_role w); simpl; lia.
Qed.

(** A tick leaves the scheduler as it is, or turns one SHORT worker into
    a LONG one (scale up), or one LONG worker into a SHORT one (scale
    down); both transitions are past the cooldown and stamp the time. *)
Lemma qhap_tick_cases (now : Q) (s : Scheduler) :
  qhap_tick now s = s
  \/ (~ (now - last_rebalance_time s < HAP_COOLDOWN)%Q
      /\ exists l1 w l2,
        workers s = l1 ++ w :: l2
        /\ ((current_role w = SHORT
             /\ HAP_HIGH_WATERMARK < List.length (queue_long s)
             /\ 1 < count_role SHORT (workers s)
             /\ qhap_tick now s
                = set_last_rebalance_time now
                    (set_workers (l1 ++ set_role LONG w :: l2) s))
            \/ (current_role w = LONG
                /\ List.length (queue_long s) < HAP_LOW_WATERMARK
                /\ 2 < count_role LONG (workers s)
                /\ qhap_tick now s
                   = set_last_rebalance_time now
                       (set_workers (l1 ++ set_role SHORT w :: l2) s)))).
Proof.
  unfold qhap_tick, get_partition_status.
  destruct (Qlt_bool (now - last_rebalance_time s) HAP_COOLDOWN) eqn:Ecd;
    [now left|].
  assert (Hcd : ~ (now - last_rebalance_time s < HAP_COOLDOWN)%Q).
  { intro H. apply Qlt_bool_iff in H. congruence. }
  destruct ((HAP_HIGH_WATERMARK <? List.length (queue_long s))
            && (1 <? count_role SHORT (workers s))) eqn:Eup.
  - apply andb_true_iff in Eup as [Eq En].
    apply Nat.ltb_lt in Eq. apply Nat.ltb_lt in En.
    destruct (first_with_role SHORT (enumerate (workers s))) as [t|] eqn:Et;
      [|now left].
    right. split; [exact Hcd|].
    apply first_with_role_some in Et as (w & Hin & Hr).
    apply in_enumerate in Hin.
    apply nth_error_split in Hin as (l1 & l2 & Hws & Hlen).
    exists l1, w, l2. split; [exact Hws|]. left.
    repeat split; try assumption.
    rewrite Hws at 1. rewrite <- Hlen, alter_at_split. reflexivity.
  - destruct ((List.length (queue_long s) <? HAP_LOW_WATERMARK)
              && (2 <? count_role LONG (workers s))) eqn:Edown; [|now left].
    apply andb_true_iff in Edown as [Eq En].
    apply Nat.ltb_lt in Eq. apply Nat.ltb_lt in En.
    destruct (first_with_role LONG (rev (enumerate (workers s))))
      as [t|] eqn:Et; [|now left].
    right. split; [exact Hcd|].
    apply first_with_role_some in Et as (w & Hin & Hr).
    apply in_rev, in_enumerate in Hin.
    apply nth_error_split in Hin as (l1 & l2 & Hws & Hlen).
    exists l1, w, l2. split; [exact Hws|]. right.
    repeat split; try assumption.
    rewrite Hws at 1. rewrite <- Hlen, alter_at_split. reflexivity.
Qed.

Lemma qhap_tick_queues (now : Q) (s : Scheduler) :
  queue_long (qhap_tick now s) = queue_long s
  /\ queue_short (qhap_tick now s) = queue_short s.
Proof.
  destruct (qhap_tick_cases now s)
    as [-> | (_ & l1 & w & l2 & _ & [(_ & _ & _ & ->) | (_ & _ & _ & ->)])];
    split; reflexivity.
Qed.

Lemma roles_split_neq (l1 l2 : list Worker) (w : Worker) (r : TaskType) :
  current_role w <> r ->
  map current_role (l1 ++ set_role r w :: l2)
  <> map current_role (l1 ++ w :: l2).
Proof.
  intros Hne H. rewrite !map_app in H. apply app_inv_head in H.
  simpl in H. injection H as H. congruence.
Qed.

(** A tick that changes a role is past the cooldown and stamps the
    time of the change. *)
Lemma qhap_tick_transition (now : Q) (s : Scheduler) :
  roles (qhap_tick now s) <> roles s ->
  ~ (now - last_rebalance_time s < HAP_COOLDOWN)%Q
  /\ last_rebalance_time (qhap_tick now s) = now.
Proof.
  intro Hne.
  destruct (qhap_tick_cases now s)
    as [E | (Hcd & l1 & w & l2 & _ & [(_ & _ & _ & E) | (_ & _ & _ & E)])].
  - rewrite E in Hne. now elim Hne.
  - rewrite E. split; [exact Hcd | reflexivity].
  - rewrite E. split; [exact Hcd | reflexivity].
Qed.

Lemma qhap_tick_within_cooldown (now : Q) (s : Scheduler) :
  (now - last_rebalance_time s < HAP_COOLDOWN)%Q -> qhap_tick now s = s.
Proof.
  intro H. unfold qhap_tick. apply Qlt_bool_iff in H. now rewrite H.
Qed.

(** ** The dispatch loop *)

Lemma try_get_worker_short_workers (now : Q) (s1 s2 : Scheduler) :
  workers s1 = workers s2 ->
  try_get_worker now s1 SHORT = try_get_worker now s2 SHORT.
Proof.
  intro H. unfold try_get_worker, home_candidates. now rewrite H.
Qed.

Lemma dispatch_short_spec (now : Q) (s : Scheduler) (q : list Pending) :
  exists served,
    q = served ++ queue_short (fst (dispatch_short now s q))
    /\ map task_entry (snd (dispatch_short now s q)) = map Some served
    /\ workers (fst (dispatch_short now s q)) = workers s
    /\ queue_long (fst (dispatch_short now s q)) = queue_long s
    /\ last_rebalance_time (fst (dispatch_short now s q))
       = last_rebalance_time s
    /\ (queue_short (fst (dispatch_short now s q)) = []
        \/ try_get_worker now (fst (dispatch_short now s q)) SHORT = None).
Proof.
  induction q as [|[[f b] r] q IH]; simpl.
  - exists []. repeat split; auto.
  - match goal with
    | |- context [try_get_worker ?a ?b ?c] =>
        destruct (try_get_worker a b c) as [worker|] eqn:E
    end.
    + destruct IH as (served & Hq & Hts & Hw & Hl & Ht & Hstop).
      destruct (dispatch_short now s q) as [s' ts]. simpl in *.
      exists ((f, b, r) :: served). simpl.
      repeat split; auto; now f_equal.
    + exists []. simpl. repeat split; auto.
Qed.

Lemma dispatch_long_spec (now : Q) (s : Scheduler) (q : list Pending) :
  exists served,
    q = served ++ queue_long (fst (dispatch_long now s q))
    /\ map task_entry (snd (dispatch_long now s q)) = map Some served
    /\ workers (fst (dispatch_long now s q)) = workers s
    /\ queue_short (fst (dispatch_long now s q)) = queue_short s
    /\ last_rebalance_time (fst (dispatch_long now s q))
       = last_rebalance_time s
    /\ (queue_long (fst (dispatch_long now s q)) = []
        \/ try_get_worker now (fst (dispatch_long now s q)) LONG = None).
Proof.
  induction q as [|[[f b] r] q IH]; simpl.
  - exists []. repeat split; auto.
  - match goal with
    | |- context [try_get_worker ?a ?b ?c] =>
        destruct (try_get_worker a b c) as [worker|] eqn:E
    end.
    + destruct IH as (served & Hq & Hts & Hw & Hl & Ht & Hstop).
      destruct (dispatch_long now s q) as [s' ts]. simpl in *.
      exists ((f, b, r) :: served). simpl.
      repeat split; auto; now f_equal.
    + exists []. simpl. repeat split; auto.
Qed.

Lemma dispatch_queue_frame (now : Q) (s : Scheduler) :
  workers (fst (dispatch_queue now s)) = workers s
  /\ last_rebalance_time (fst (dispatch_queue now s)) = last_rebalance_time s.
Proof.
  unfold dispatch_queue.
  destruct (dispatch_short_spec now s (queue_short s))
    as (_ & _ & _ & Hw1 & _ & Ht1 & _).
  destruct (dispatch_short now s (queue_short s)) as [s1 ts1]. simpl in *.
  destruct (dispatch_long_spec now s1 (queue_long s1))
    as (_ & _ & _ & Hw2 & _ & Ht2 & _).
  destruct (dispatch_long now s1 (queue_long s1)) as [s2 ts2]. simpl in *.
  split; congruence.
Qed.


(** ** What the events other than a tick leave alone *)

Lemma roles_alter_at (f : Worker -> Worker) (i : nat) (ws : list Worker) :
  (forall x, current_role (f x) = current_role x) ->
  map current_role (alter_at f i ws) = map current_role ws.
Proof.
  intro Hf. revert i. induction ws as [|w ws IH]; intros [|i]; simpl;
    try reflexivity.
  - now rewrite Hf.
  - now rewrite IH.
Qed.

Lemma process_request_begin_frame (i : nat) (aw : Awaiter) (w : World) :
  roles (scheduler (process_request_begin i aw w)) = roles (scheduler w)
  /\ last_rebalance_time (scheduler (process_request_begin i aw w))
     = last_rebalance_time (scheduler w).
Proof.
  unfold roles. simpl. split; [|reflexivity].
  now apply roles_alter_at.
Qed.

Lemma step_frame (e : Event) (w : World) :
  is_tick e = false ->
  roles (scheduler (step e w)) = roles (scheduler w)
  /\ last_rebalance_time (scheduler (step e w))
     = last_rebalance_time (scheduler w).
Proof.
  destruct e as [now body request | now | now k o | now]; simpl;
    [intros _ | intros _ | intros _ | discriminate].
  - unfold chat_completions.
    destruct (try_get_worker now (scheduler w) (classify body)).
    + apply process_request_begin_frame.
    + destruct (classify body); split; reflexivity.
  - unfold run_ready. destruct (ready w) as [|[|i b r f] rest].
    + split; reflexivity.
    + destruct (dispatch_queue_frame now (scheduler w)) as [Hw Ht].
      destruct (dispatch_queue now (scheduler w)) as [s' ts].
      simpl in *. unfold roles. now rewrite Hw, Ht.
    + exact (process_request_begin_frame i _ (with_ready rest w)).
  - unfold send_done. destruct (nth_error (sending w) k) as [fw|];
      [|split; reflexivity].
    unfold process_request_end, run_task_end.
    destruct (fw_awaiter fw); destruct o; unfold roles; simpl;
      (split; [|reflexivity]); now apply roles_alter_at.
Qed.

Lemma count_role_roles (r : TaskType) (ws : list Worker) :
  count_role r ws
  = List.length (filter (fun x => TaskType_eqb x r) (map current_role ws)).
Proof.
  unfold count_role. induction ws as [|w ws IH]; simpl; [reflexivity|].
  destruct (TaskType_eqb (current_role w) r); simpl; now rewrite IH.
Qed.

Lemma reachable_run (evs : list Event) (w : World) :
  reachable w -> reachable (run evs w).
Proof.
  revert w. induction evs as [|e evs IH]; intros w H; simpl; [exact H|].
  apply IH. now constructor.
Qed.

(** ** The role partition *)

(** C3: in every state reachable from the initial 2 LONG / 2 SHORT
    configuration the roles partition the four workers and at least one
    worker is SHORT. *)
Theorem partition_invariant (w : World) :
  reachable w ->
  count_role LONG (workers (scheduler w))
  + count_role SHORT (workers (scheduler w)) = 4
  /\ 1 <= count_role SHORT (workers (scheduler w)).
Proof.
  intro H. rewrite count_role_total.
  induction H as [t0 | w e Hr [Hlen Hshort]].
  - simpl. split; [reflexivity|]. unfold count_role. simpl. lia.
  - destruct (is_tick e) eqn:Ee.
    + destruct e as [| | |now]; try discriminate. simpl.
      destruct (qhap_tick_cases now (scheduler w))
        as [-> | (_ & l1 & x & l2 & Hws &
                  [(Hx & _ & Hn & ->) | (Hx & _ & _ & ->)])];
        [split; assumption | |]; simpl;
        rewrite Hws in *; rewrite count_role_split in *;
        rewrite length_app in *; simpl in *; rewrite Hx in *; simpl in *;
        split; lia.
    + destruct (step_frame e w Ee) as [Hroles _]. unfold roles in Hroles.
      rewrite count_role_roles, Hroles, <- count_role_roles.
      split; [|assumption].
      rewrite <- (length_map current_role), Hroles, length_map. exact Hlen.
Qed.

Lemma partition_invariant_witness :
  count_role LONG (workers (scheduler (step (Ev_qhap_tick 5) backlog_world)))
  + count_role SHORT
      (workers (scheduler (step (Ev_qhap_tick 5) backlog_world))) = 4.
Proof.
  apply (partition_invariant (step (Ev_qhap_tick 5) backlog_world)).
  apply reachable_step. unfold backlog_world.
  apply reachable_run. apply reachable_init.
Defined.

(** ** Cooldown *)

Lemma run_within_cooldown (t1 : Q) (evs : list Event) (w : World) :
  last_rebalance_time (scheduler w) = t1 ->
  Forall (within_cooldown t1) evs ->
  roles (scheduler (run evs w)) = roles (scheduler w).
Proof.
  revert w. induction evs as [|e evs IH]; intros w Hlast Hall; simpl;
    [reflexivity|].
  inversion Hall as [|? ? He Hevs]; subst.
  destruct (is_tick e) eqn:Ee.
  - destruct e as [| | |now]; try discriminate. simpl in He.
    simpl step. rewrite (qhap_tick_within_cooldown _ _ He).
    replace (with_scheduler (scheduler w) w) with w by now destruct w.
    now apply IH.
  - destruct (step_frame e w Ee) as [Hroles Ht].
    rewrite IH; [exact Hroles | exact Ht | exact Hevs].
Qed.

(** C7: a tick changes a role only when the cooldown has elapsed since
    [last_rebalance_time], and then records its own time there; after
    such a tick at [t1], whatever else happens, ticks observed less than
    the cooldown after [t1] change no role, so backlog conditions less
    than the cooldown apart yield at most one transition. *)
Theorem cooldown_one_transition (w : World) (t1 : Q) (evs : list Event) :
  roles (scheduler (step (Ev_qhap_tick t1) w)) <> roles (scheduler w) ->
  Forall (within_cooldown t1) evs ->
  (5 <= t1 - last_rebalance_time (scheduler w))%Q
  /\ last_rebalance_time (scheduler (step (Ev_qhap_tick t1) w)) = t1
  /\ roles (scheduler (run evs (step (Ev_qhap_tick t1) w)))
     = roles (scheduler (step (Ev_qhap_tick t1) w)).
Proof.
  intros Hne Hall. simpl in Hne.
  destruct (qhap_tick_transition t1 (scheduler w) Hne) as [Hcd Hlast].
  repeat split; try assumption.
  - apply Qnot_lt_le. exact Hcd.
  - apply (run_within_cooldown t1); assumption.
Qed.

Lemma cooldown_one_transition_witness :
  roles (scheduler (run [Ev_qhap_tick 7; Ev_request 8 long_body 27;
                         Ev_qhap_tick (99 # 10)]
                        (step (Ev_qhap_tick 5) backlog_world)))
  = [LONG; LONG; LONG; SHORT].
Proof.
  destruct (cooldown_one_transition backlog_world 5
              [Ev_qhap_tick 7; Ev_request 8 long_body 27;
               Ev_qhap_tick (99 # 10)])
    as (_ & _ & H).
  - vm_compute. discriminate.
  - repeat constructor; vm_compute; reflexivity.
  - rewrite H. vm_compute. reflexivity.
Defined.

(** ** When [dispatch_queue] is scheduled *)





(** ** The end of a forward *)

(** C9 (as the code has it): when a forward ends, with an exception or
    with any status code, the worker's capacity is released by exactly
    one [dec_requests] call, the forward is gone and nothing re-sends or
    re-queues the request, and the only task created is the next
    [dispatch_queue].  The awaiting side gets the exception as a failure
    ([set_exception] for a queued request); a response with a
    non-success status is handed over as a result ([set_result]) with
    that status. *)
Theorem forward_end_releases_once (now : Q) (k : nat) (o : SendOutcome)
        (w : World) (fw : Forward) :
  nth_error (sending w) k = Some fw ->
  calls (send_done now k o w) = calls w ++ [Call_dec (fw_worker fw)]
  /\ workers (scheduler (send_done now k o w))
     = alter_at (dec_requests now) (fw_worker fw) (workers (scheduler w))
  /\ sending (send_done now k o w) = remove_at k (sending w)
  /\ ready (send_done now k o w) = ready w ++ [T_dispatch_queue]
  /\ queue_long (scheduler (send_done now k o w)) = queue_long (scheduler w)
  /\ queue_short (scheduler (send_done now k o w))
     = queue_short (scheduler w)
  /\ match fw_awaiter fw with
     | By_run_task future =>
         futures (send_done now k o w)
         = futures w ++ [(future, completion_of o)]
         /\ replies (send_done now k o w) = replies w
     | By_handler request =>
         replies (send_done now k o w)
         = replies w ++ [(request, completion_of o)]
         /\ futures (send_done now k o w) = futures w
     end.
Proof.
  intro Hk. unfold send_done. rewrite Hk.
  unfold process_request_end, run_task_end, completion_of.
  destruct (fw_awaiter fw); destruct o; simpl; repeat split; reflexivity.
Qed.

Lemma forward_end_releases_once_witness :
  futures (send_done 2 15 (Send_raises "ConnectError") queued_forward_world)
  = [(0, Raised "ConnectError")].
Proof.
  destruct (forward_end_releases_once 2 15 (Send_raises "ConnectError")
              queued_forward_world (mkForward 2 (By_run_task 0)))
    as (_ & _ & _ & _ & _ & _ & H).
  - vm_compute. reflexivity.
  - cbn [fw_awaiter] in H. destruct H as [H _].
    rewrite H. vm_compute. reflexivity.
Defined.

(** C9 as stated fails for a non-success status: the backend answers
    500 to the forward of the queued request, and its future is
    resolved with that response as a result, not with a failure. *)
Lemma status_500_is_a_result :
  ~ failure_reaches_future 2 15 (Send_returns 500) queued_forward_world.
Proof.
  unfold failure_reaches_future. intro H.
  destruct (H (mkForward 2 (By_run_task 0)) 0) as [e He].
  - vm_compute. reflexivity.
  - reflexivity.
  - unfold forwarding_failed. right. lia.
  - assert (Hf : futures (send_done 2 15 (Send_returns 500)
                                    queued_forward_world)
                 = [(0, Returned (StreamingResponse 500))])
      by (vm_compute; reflexivity).
    rewrite Hf in He. destruct He as [He | []]. discriminate He.
Qed.

(** ** Capacity accounting *)

Lemma nth_error_alter_at {A : Type} (f : A -> A) (j i : nat) (l : list A) :
  nth_error (alter_at f j l) i
  = if i =? j then option_map f (nth_error l i) else nth_error l i.
Proof.
  revert j i. induction l as [|x l IH]; intros [|j] [|i]; simpl;
    try reflexivity.
  - now destruct (i =? j).
  - apply IH.
Qed.

Lemma map_alter_at {A B : Type} (h : A -> B) (f : A -> A) (g : B -> B)
      (j : nat) (l : list A) :
  (forall x, h (f x) = g (h x)) ->
  map h (alter_at f j l) = alter_at g j (map h l).
Proof.
  intro H. revert j. induction l as [|x l IH]; intros [|j]; simpl;
    try reflexivity.
  - now rewrite H.
  - now rewrite IH.
Qed.

Lemma filter_length_last {A : Type} (p : A -> bool) (l : list A) (x : A) :
  Z.of_nat (List.length (filter p (l ++ [x])))
  = (Z.of_nat (List.length (filter p l)) + (if p x then 1 else 0))%Z.
Proof.
  rewrite filter_app, length_app. simpl. destruct (p x); simpl; lia.
Qed.

Lemma filter_length_remove_at {A : Type} (p : A -> bool) (k : nat)
      (l : list A) (x : A) :
  nth_error l k = Some x ->
  Z.of_nat (List.length (filter p l))
  = (Z.of_nat (List.length (filter p (remove_at k l)))
     + (if p x then 1 else 0))%Z.
Proof.
  revert k. induction l as [|y l IH]; intros [|k] H; simpl in *;
    try discriminate.
  - injection H as ->. destruct (p x); cbn [List.length]; lia.
  - specialize (IH k H). destruct (p y); cbn [List.length]; lia.
Qed.

Lemma accounted_begin (j : nat) (aw : Awaiter) (w : World) :
  accounted w -> accounted (process_request_begin j aw w).
Proof.
  intros Hacc i a Hn. unfold actives in Hn. simpl in Hn.
  rewrite (map_alter_at active_requests inc_requests (fun z => (z + 1)%Z))
    in Hn by reflexivity.
  rewrite nth_error_alter_at in Hn.
  unfold load, count_calls. simpl. rewrite !filter_length_last. simpl.
  destruct (Nat.eqb_spec i j) as [-> | Hne].
  - destruct (nth_error (map active_requests (workers (scheduler w))) j)
      as [a0|] eqn:E; [|discriminate].
    injection Hn as <-. destruct (Hacc j a0 E) as [Hl Hc].
    unfold load, count_calls in Hl, Hc. rewrite Nat.eqb_refl. lia.
  - destruct (Hacc i a Hn) as [Hl Hc].
    unfold load, count_calls in Hl, Hc.
    destruct (Nat.eqb_spec j i); [congruence | lia].
Qed.

Lemma accounted_send_done (now : Q) (k : nat) (o : SendOutcome) (w : World) :
  accounted w -> accounted (send_done now k o w).
Proof.
  intros Hacc. unfold send_done.
  destruct (nth_error (sending w) k) as [fw|] eqn:Hk; [|exact Hacc].
  intros i a Hn.
  assert (Hn' : nth_error
                  (alter_at (fun z => Z.max 0 (z - 1)) (fw_worker fw)
                            (actives w)) i = Some a).
  { unfold actives.
    rewrite <- (map_alter_at active_requests (dec_requests now))
      by reflexivity.
    unfold process_request_end, run_task_end in Hn.
    destruct (fw_awaiter fw); destruct o; exact Hn. }
  assert (Hload : load i (send_done now k o w)
                  = Z.of_nat
                      (List.length
                         (filter (fun f => fw_worker f =? i)
                                 (remove_at k (sending w))))).
  { unfold send_done. rewrite Hk.
    unfold process_request_end, run_task_end.
    destruct (fw_awaiter fw); destruct o; reflexivity. }
  assert (Hcalls : calls (send_done now k o w)
                   = calls w ++ [Call_dec (fw_worker fw)]).
  { unfold send_done. rewrite Hk.
    unfold process_request_end, run_task_end.
    destruct (fw_awaiter fw); destruct o; reflexivity. }
  unfold send_done in Hload, Hcalls. rewrite Hk in Hload, Hcalls.
  rewrite Hload, Hcalls. clear Hload Hcalls Hn.
  unfold count_calls. rewrite !filter_length_last. simpl.
  pose proof (filter_length_remove_at (fun f => fw_worker f =? i) k _ _ Hk)
    as Hrem. simpl in Hrem.
  rewrite nth_error_alter_at in Hn'.
  destruct (Nat.eqb_spec i (fw_worker fw)) as [-> | Hne].
  - destruct (nth_error (actives w) (fw_worker fw)) as [a0|] eqn:E;
      [|discriminate].
    injection Hn' as <-. destruct (Hacc _ a0 E) as [Hl Hc].
    unfold load, count_calls in Hl, Hc.
    rewrite Nat.eqb_refl in *. lia.
  - destruct (Hacc i a Hn') as [Hl Hc].
    unfold load, count_calls in Hl, Hc.
    destruct (Nat.eqb_spec (fw_worker fw) i); [congruence | lia].
Qed.

Lemma qhap_tick_actives (now : Q) (s : Scheduler) :
  map active_requests (workers (qhap_tick now s))
  = map active_requests (workers s).
Proof.
  destruct (qhap_tick_cases now s)
    as [-> | (_ & l1 & x & l2 & Hws &
              [(_ & _ & _ & ->) | (_ & _ & _ & ->)])];
    [reflexivity | |]; simpl; rewrite Hws, !map_app; reflexivity.
Qed.

Lemma accounted_step (e : Event) (w : World) :
  accounted w -> accounted (step e w).
Proof.
  intro Hacc.
  destruct e as [now body request | now | now k o | now]; simpl.
  - unfold chat_completions.
    destruct (try_get_worker now (scheduler w) (classify body)).
    + now apply accounted_begin.
    + destruct (classify body); exact Hacc.
  - unfold run_ready. destruct (ready w) as [|[|i b r f] rest].
    + exact Hacc.
    + destruct (dispatch_queue_frame now (scheduler w)) as [Hw _].
      destruct (dispatch_queue now (scheduler w)) as [s' ts].
      simpl in Hw. intros j a Hn. unfold actives in Hn. simpl in Hn.
      rewrite Hw in Hn. exact (Hacc j a Hn).
    + apply (accounted_begin i _ (with_ready rest w)). exact Hacc.
  - now apply accounted_send_done.
  - intros j a Hn. unfold actives in Hn. simpl in Hn.
    rewrite qhap_tick_actives in Hn. exact (Hacc j a Hn).
Qed.

(** X1: the books of the capacity accounting balance.  In every reachable
    state each worker's [active_requests] is the number of
    [inc_requests] calls minus the number of [dec_requests] calls made
    on it, equals the number of its forwards in flight, and is not
    negative (so the floor of [dec_requests] is never used). *)
Lemma capacity_conservation (w : World) (i : nat) (wi : Worker) :
  reachable w ->
  nth_error (workers (scheduler w)) i = Some wi ->
  active_requests wi
  = (count_calls (is_inc i) (calls w) - count_calls (is_dec i) (calls w))%Z
  /\ active_requests wi = load i w
  /\ (0 <= active_requests wi)%Z.
Proof.
  intros Hr Hn.
  assert (Hacc : accounted w).
  { clear Hn. induction Hr as [t0 | w e Hr IH].
    - intros j a Hj. unfold actives in Hj. simpl in Hj.
      destruct j as [|[|[|[|[|j]]]]]; simpl in Hj; try discriminate;
        injection Hj as <-; split; reflexivity.
    - now apply accounted_step. }
  apply (map_nth_error active_requests) in Hn.
  destruct (Hacc i _ Hn) as [Hl Hc].
  repeat split; try assumption.
  rewrite Hl. unfold load. lia.
Qed.

(** C1 at its failing input: after [overload_trace] the books still
    balance, but worker 3 holds nine requests against a limit of eight.
    The one [dispatch_queue] call placed both queued requests on it,
    because [try_get_worker] saw seven active requests both times:
    [inc_requests] only runs when the created tasks start. *)
Theorem drain_overcommits_worker :
  reachable (run overload_trace (World_init 0))
  /\ actives (run overload_trace (World_init 0)) = [0; 0; 9; 8]%Z
  /\ count_calls (is_inc 2) (calls (run overload_trace (World_init 0)))
     = 10%Z
  /\ count_calls (is_dec 2) (calls (run overload_trace (World_init 0)))
     = 1%Z
  /\ (WORKER_CONCURRENCY_LIMIT < 9)%Z
  /\ snd (dispatch_queue 1
            (scheduler (run (firstn 19 overload_trace) (World_init 0))))
     = [T_run_task 2 short_body 16 0; T_run_task 2 short_body 17 1].
Proof.
  split; [apply reachable_run, reachable_init|].
  repeat split; vm_compute; reflexivity.
Qed.

(** ** The earlier variant's admission policy *)

Lemma steal_loop_some_busy_flag (now : Q) (b : bool)
      (l : list (nat * BusyFlag.Worker)) (i : nat) :
  BusyFlag.steal_loop now b l = Some i ->
  exists w, In (i, w) l
            /\ BusyFlag.current_role w = SHORT
            /\ b = true
            /\ (RASP_STEAL_COOLDOWN < BusyFlag.get_idle_duration now w)%Q.
Proof.
  induction l as [|[j w] l IH]; simpl; [discriminate|].
  destruct (TaskType_eqb (BusyFlag.current_role w) SHORT
            && negb (BusyFlag.is_busy w)) eqn:E1.
  - destruct (b && Qlt_bool RASP_STEAL_COOLDOWN
                            (BusyFlag.get_idle_duration now w)) eqn:E2.
    + intro H. injection H as <-. exists w.
      apply andb_true_iff in E1 as [Er _].
      apply andb_true_iff in E2 as [Eb Et].
      apply TaskType_eqb_eq in Er. apply Qlt_bool_iff in Et.
      repeat split; auto.
    + intro H. destruct (IH H) as (w' & Hin & Hrest).
      exists w'. split; [now right | exact Hrest].
  - intro H. destruct (IH H) as (w' & Hin & Hrest).
    exists w'. split; [now right | exact Hrest].
Qed.

(** X26: the steal gate of the busy-flag variant: a worker of another role
    is returned only to a LONG request, with the SHORT queue empty and
    the worker idle for strictly more than the steal cooldown. *)
Lemma steal_gating_busy_flag (now : Q) (s : BusyFlag.Scheduler)
      (c : TaskType) (i : nat) (wi : BusyFlag.Worker) :
  BusyFlag.try_get_worker now s c = Some i ->
  nth_error (BusyFlag.workers s) i = Some wi ->
  BusyFlag.current_role wi <> c ->
  c = LONG /\ BusyFlag.queue_short s = []
  /\ (2 < BusyFlag.get_idle_duration now wi)%Q.
Proof.
  unfold BusyFlag.try_get_worker. intros Hres Hnth Hne.
  destruct (filter _ (enumerate (BusyFlag.workers s))) as [|[k wk] cs] eqn:Hc.
  - destruct c; [|discriminate].
    apply steal_loop_some_busy_flag in Hres as (w & Hin & Hr & Hq & Ht).
    apply in_enumerate in Hin. rewrite Hnth in Hin. injection Hin as <-.
    repeat split; try assumption.
    apply Nat.eqb_eq in Hq. now destruct (BusyFlag.queue_short s).
  - exfalso. injection Hres as Hi. simpl in Hi. subst k.
    assert (Hin : In (i, wk) (filter
                     (fun p => TaskType_eqb (BusyFlag.current_role (snd p)) c
                               && negb (BusyFlag.is_busy (snd p)))
                     (enumerate (BusyFlag.workers s))))
      by (rewrite Hc; now left).
    apply filter_In in Hin as [Hin Hp]. simpl in Hp.
    apply in_enumerate in Hin. rewrite Hnth in Hin. injection Hin as <-.
    apply andb_true_iff in Hp as [Hr _]. apply TaskType_eqb_eq in Hr.
    contradiction.
Qed.

(** * Further properties of the admission policy *)

Lemma filter_nil_iff {A : Type} (f : A -> bool) (l : list A) :
  filter f l = [] <-> forall x, In x l -> f x = false.
Proof.
  induction l as [|y l IH]; simpl.
  - split; [intros _ x [] | reflexivity].
  - destruct (f y) eqn:E.
    + split; [discriminate|]. intro H. specialize (H y (or_introl eq_refl)).
      congruence.
    + rewrite IH. split.
      * intros H x [<- | Hx]; auto.
      * intros H x Hx. apply H. now right.
Qed.

Lemma in_workers_enumerate {A : Type} (l : list A) (x : A) :
  In x l <-> exists i, In (i, x) (enumerate l).
Proof.
  split.
  - intro H. apply In_nth_error in H as [i Hi]. exists i.
    now apply in_enumerate.
  - intros [i Hi]. apply in_enumerate in Hi. now apply nth_error_In in Hi.
Qed.

Lemma home_candidates_nil_iff (c : TaskType) (s : Scheduler) :
  home_candidates c s = []
  <-> forall w, In w (workers s) -> home_free c w = false.
Proof.
  unfold home_candidates. rewrite filter_nil_iff. split.
  - intros H w Hw. apply in_workers_enumerate in Hw as [i Hi].
    exact (H (i, w) Hi).
  - intros H [i w] Hi. apply H. apply in_workers_enumerate. now exists i.
Qed.

Lemma steal_loop_cons (now : Q) (b : bool) (i : nat) (w : Worker)
      (rest : list (nat * Worker)) :
  steal_loop now b ((i, w) :: rest)
  = if b && stealable now w then Some i else steal_loop now b rest.
Proof.
  unfold stealable. simpl.
  destruct (TaskType_eqb (current_role w) SHORT); simpl;
    destruct (can_accept w); simpl; destruct b; simpl;
    try reflexivity.
Qed.

Lemma steal_loop_none_iff (now : Q) (b : bool) (l : list (nat * Worker)) :
  steal_loop now b l = None
  <-> b = false \/ forall p, In p l -> stealable now (snd p) = false.
Proof.
  induction l as [|[i w] l IH].
  - simpl. split; [intros _; right; intros p [] | reflexivity].
  - rewrite steal_loop_cons. destruct b; simpl.
    + destruct (stealable now w) eqn:E.
      * split; [discriminate|]. intros [H | H]; [discriminate|].
        specialize (H (i, w) (or_introl eq_refl)). simpl in H. congruence.
      * rewrite IH. split.
        -- intros [H | H]; [discriminate|]. right.
           intros p [<- | Hp]; auto.
        -- intros [H | H]; [discriminate|]. right. intros p Hp.
           apply H. now right.
    + rewrite IH. split; intros _; now left.
Qed.


(** X2: whatever [try_get_worker] returns is a position of the fleet,
    and the worker there has a free slot at decision time. *)
Theorem try_get_worker_returns_free_worker (now : Q) (s : Scheduler)
        (c : TaskType) (i : nat) :
  try_get_worker now s c = Some i ->
  exists wi,
    nth_error (workers s) i = Some wi
    /\ (active_requests wi < WORKER_CONCURRENCY_LIMIT)%Z.
Proof.
  intro Hres.
  assert (Hnth : exists wi, nth_error (workers s) i = Some wi).
  { unfold try_get_worker in Hres.
    destruct (home_candidates c s) as [|c0 cs] eqn:Hc.
    - destruct c; [|discriminate].
      apply steal_loop_some in Hres as (w & Hin & _).
      exists w. now apply in_enumerate.
    - injection Hres as Hi.
      destruct (min_by_key_first (fun p => active_requests (snd p)) cs c0 _
                                 eq_refl) as (l1 & l2 & Heq & _ & _).
      set (m := min_by_key (fun p => active_requests (snd p)) c0 cs) in *.
      assert (Hin : In m (home_candidates c s))
        by (rewrite Hc, Heq; apply in_elt).
      destruct m as [k wk]. simpl in Hi. subst k.
      apply in_home_candidates in Hin as (Hn & _). now exists wk. }
  destruct Hnth as [wi Hnth]. exists wi. split; [exact Hnth|].
  destruct (try_get_worker_cases now s c i wi Hres Hnth) as [Hcap _].
  unfold can_accept in Hcap. now apply Z.ltb_lt.
Qed.

Lemma try_get_worker_returns_free_worker_witness :
  exists wi,
    nth_error (workers (scheduler backlog_world)) 2 = Some wi
    /\ (active_requests wi < WORKER_CONCURRENCY_LIMIT)%Z.
Proof.
  apply (try_get_worker_returns_free_worker 3 (scheduler backlog_world) LONG 2).
  vm_compute. reflexivity.
Defined.

(** X3: a request is refused a worker exactly in these cases.  A SHORT
    request: no SHORT worker has a free slot.  A LONG request: no LONG
    worker has a free slot and, besides, the SHORT queue is not empty
    or no SHORT worker with a free slot has been idle for more than the
    steal cooldown. *)
Theorem try_get_worker_none_iff (now : Q) (s : Scheduler) :
  (try_get_worker now s SHORT = None
   <-> forall w, In w (workers s) -> home_free SHORT w = false)
  /\ (try_get_worker now s LONG = None
      <-> (forall w, In w (workers s) -> home_free LONG w = false)
          /\ (queue_short s <> []
              \/ forall w, In w (workers s) -> stealable now w = false)).
Proof.
  unfold try_get_worker. split.
  - rewrite <- home_candidates_nil_iff.
    destruct (home_candidates SHORT s); split; congruence.
  - rewrite <- home_candidates_nil_iff.
    destruct (home_candidates LONG s) as [|c0 cs].
    + rewrite steal_loop_none_iff. split.
      * intros [Hq | Hall]; (split; [reflexivity|]).
        -- left. apply Nat.eqb_neq in Hq. intro E. now rewrite E in Hq.
        -- right. intros w Hw. apply in_workers_enumerate in Hw as [i Hi].
           exact (Hall (i, w) Hi).
      * intros [_ [Hq | Hall]].
        -- left. apply Nat.eqb_neq. destruct (queue_short s);
             [contradiction | discriminate].
        -- right. intros [i w] Hi. apply Hall.
           apply in_workers_enumerate. now exists i.
    + split; [discriminate | intros [H _]; discriminate].
Qed.

Lemma try_get_worker_none_iff_witness :
  try_get_worker 1 (scheduler backlog_world) LONG = None.
Proof.
  apply (try_get_worker_none_iff 1 (scheduler backlog_world)).
  split.
  - intros w Hw. vm_compute in Hw.
    repeat (destruct Hw as [<- | Hw]; [vm_compute; reflexivity|]).
    destruct Hw.
  - right. intros w Hw. vm_compute in Hw.
    repeat (destruct Hw as [<- | Hw]; [vm_compute; reflexivity|]).
    destruct Hw.
Defined.



(** X5: a worker taken from the other role carries no request, and its
    idle stamp is more than the steal cooldown old. *)
Theorem stolen_worker_is_idle (now : Q) (s : Scheduler) (c : TaskType)
        (i : nat) (wi : Worker) :
  try_get_worker now s c = Some i ->
  nth_error (workers s) i = Some wi ->
  current_role wi <> c ->
  (active_requests wi <= 0)%Z
  /\ (2 < now - last_active_time wi)%Q.
Proof.
  intros Hres Hnth Hne.
  destruct (try_get_worker_cases now s c i wi Hres Hnth)
    as [_ [Hhome | (_ & _ & _ & Ht)]]; [contradiction|].
  unfold get_idle_duration, RASP_STEAL_COOLDOWN in Ht.
  destruct (Z.gtb_spec (active_requests wi) 0) as [Hpos | Hzero].
  - exfalso. revert Ht. apply Qle_not_lt. discriminate.
  - split; [lia | exact Ht].
Qed.

Lemma stolen_worker_is_idle_witness :
  (active_requests stolen_worker <= 0)%Z
  /\ (2 < 3 - last_active_time stolen_worker)%Q.
Proof.
  apply (stolen_worker_is_idle 3 (scheduler backlog_world) LONG 2).
  - vm_compute. reflexivity.
  - vm_compute. reflexivity.
  - simpl. discriminate.
Defined.

(** X6: a worker that was just released is not stolen during the steal
    cooldown: if a worker stands as [dec_requests] at time [t] left it
    and a LONG request is given that worker no later than [t + 2], the
    worker is a LONG worker (a home placement). *)
Theorem no_steal_within_cooldown_of_release (now t : Q) (s : Scheduler)
        (i : nat) (w0 : Worker) :
  nth_error (workers s) i = Some (dec_requests t w0) ->
  (now - t <= 2)%Q ->
  try_get_worker now s LONG = Some i ->
  current_role w0 = LONG.
Proof.
  intros Hnth Hnow Hres.
  destruct (try_get_worker_cases now s LONG i _ Hres Hnth)
    as [_ [Hhome | (_ & _ & _ & Ht)]]; [exact Hhome|].
  exfalso. revert Ht.
  unfold get_idle_duration, dec_requests, RASP_STEAL_COOLDOWN. simpl.
  destruct (Z.gtb_spec (Z.max 0 (active_requests w0 - 1)) 0) as [Hpos | Hz].
  - apply Qle_not_lt. discriminate.
  - destruct (Z.eqb_spec (Z.max 0 (active_requests w0 - 1)) 0) as [_ | Hn];
      [|lia].
    now apply Qle_not_lt.
Qed.

Lemma no_steal_within_cooldown_of_release_witness :
  current_role (mkWorker 1 "http://localhost:8001/v1/chat/completions"
                         LONG 0 0) = LONG.
Proof.
  apply (no_steal_within_cooldown_of_release 1 1
           (set_workers
              (alter_at (dec_requests 1) 0 (workers (Scheduler_init 0)))
              (Scheduler_init 0))
           0 (mkWorker 1 "http://localhost:8001/v1/chat/completions"
                       LONG 0 0)).
  - vm_compute. reflexivity.
  - vm_compute. discriminate.
  - vm_compute. reflexivity.
Defined.

(** * Further properties of the rebalancer *)

Lemma enumerate_from_app {A : Type} (l1 l2 : list A) (k : nat) :
  enumerate_from k (l1 ++ l2)
  = enumerate_from k l1 ++ enumerate_from (k + List.length l1) l2.
Proof.
  revert k. induction l1 as [|x l1 IH]; intro k; simpl.
  - now rewrite Nat.add_0_r.
  - rewrite IH. do 3 f_equal. lia.
Qed.

Lemma first_with_role_first (r : TaskType) (ws : list Worker) (k t : nat) :
  first_with_role r (enumerate_from k ws) = Some t ->
  exists l1 w l2,
    ws = l1 ++ w :: l2 /\ t = k + List.length l1
    /\ current_role w = r
    /\ Forall (fun x => current_role x <> r) l1.
Proof.
  revert k. induction ws as [|x ws IH]; intros k; simpl; [discriminate|].
  destruct (TaskType_eqb (current_role x) r) eqn:E.
  - intro H. injection H as <-. exists [], x, ws.
    apply TaskType_eqb_eq in E.
    split; [reflexivity | split; [simpl; lia | split; [exact E|]]].
    constructor.
  - intro H. destruct (IH _ H) as (l1 & w & l2 & -> & -> & Hr & Hall).
    exists (x :: l1), w, l2.
    split; [reflexivity | split; [simpl; lia | split; [exact Hr|]]].
    constructor; [|exact Hall]. intro Hx. apply TaskType_eqb_eq in Hx.
    congruence.
Qed.

Lemma first_with_role_last (r : TaskType) (ws : list Worker) (k t : nat) :
  first_with_role r (rev (enumerate_from k ws)) = Some t ->
  exists l1 w l2,
    ws = l1 ++ w :: l2 /\ t = k + List.length l1
    /\ current_role w = r
    /\ Forall (fun x => current_role x <> r) l2.
Proof.
  induction ws as [|x ws IH] using rev_ind; [simpl; discriminate|].
  rewrite enumerate_from_app. simpl. rewrite rev_unit. simpl.
  destruct (TaskType_eqb (current_role x) r) eqn:E.
  - intro H. injection H as <-. exists ws, x, [].
    apply TaskType_eqb_eq in E.
    split; [reflexivity | split; [reflexivity | split; [exact E|]]].
    constructor.
  - intro H. destruct (IH H) as (l1 & w & l2 & -> & -> & Hr & Hall).
    exists l1, w, (l2 ++ [x]).
    split; [now rewrite <- app_assoc
           | split; [reflexivity | split; [exact Hr|]]].
    apply Forall_app. split; [exact Hall|]. constructor; [|constructor].
    intro Hx. apply TaskType_eqb_eq in Hx. congruence.
Qed.

Lemma first_with_role_none (r : TaskType) (l : list (nat * Worker)) :
  first_with_role r l = None ->
  forall p, In p l -> TaskType_eqb (current_role (snd p)) r = false.
Proof.
  induction l as [|[i w] l IH]; simpl; [intros _ p []|].
  destruct (TaskType_eqb (current_role w) r) eqn:E; [discriminate|].
  intros H p [<- | Hp]; [exact E | now apply IH].
Qed.

Lemma first_with_role_found (r : TaskType) (ws : list Worker)
      (l : list (nat * Worker)) :
  (forall p, In p (enumerate ws) -> In p l) ->
  0 < count_role r ws ->
  exists t, first_with_role r l = Some t.
Proof.
  intros Hsub Hcount.
  destruct (first_with_role r l) as [t|] eqn:E; [now exists t|].
  exfalso. pose proof (first_with_role_none r l E) as Hnone.
  assert (Hnil : filter (fun w => TaskType_eqb (current_role w) r) ws = []).
  { apply filter_nil_iff. intros w Hw.
    apply in_workers_enumerate in Hw as [i Hi].
    exact (Hnone (i, w) (Hsub _ Hi)). }
  unfold count_role in Hcount. rewrite Hnil in Hcount. simpl in Hcount. lia.
Qed.

Lemma not_cooldown (now : Q) (s : Scheduler) :
  (HAP_COOLDOWN <= now - last_rebalance_time s)%Q ->
  Qlt_bool (now - last_rebalance_time s) HAP_COOLDOWN = false.
Proof.
  intro H. destruct (Qlt_bool _ _) eqn:E; [|reflexivity].
  apply Qlt_bool_iff in E. exfalso. exact (Qle_not_lt _ _ H E).
Qed.

Lemma qhap_tick_scale_up (now : Q) (s : Scheduler) :
  (5 <= now - last_rebalance_time s)%Q ->
  10 < List.length (queue_long s) ->
  1 < count_role SHORT (workers s) ->
  exists l1 w l2,
    workers s = l1 ++ w :: l2
    /\ Forall (fun x => current_role x = LONG) l1
    /\ current_role w = SHORT
    /\ qhap_tick now s
       = set_last_rebalance_time now
           (set_workers (l1 ++ set_role LONG w :: l2) s)
    /\ count_role SHORT (workers (qhap_tick now s))
       = count_role SHORT (workers s) - 1
    /\ count_role LONG (workers (qhap_tick now s))
       = count_role LONG (workers s) + 1.
Proof.
  intros Hcd Hq Hn.
  destruct (first_with_role_found SHORT (workers s) (enumerate (workers s)))
    as [t Ht]; [auto | lia |].
  assert (Htick : qhap_tick now s
                  = set_last_rebalance_time now
                      (set_workers (alter_at (set_role LONG) t (workers s)) s)).
  { unfold qhap_tick, get_partition_status.
    rewrite (not_cooldown now s Hcd).
    apply Nat.ltb_lt in Hq. apply Nat.ltb_lt in Hn.
    unfold HAP_HIGH_WATERMARK. rewrite Hq, Hn. simpl. now rewrite Ht. }
  apply first_with_role_first in Ht as (l1 & w & l2 & Hws & Hlen & Hr & Hall).
  simpl in Hlen. subst t. rewrite Hws, alter_at_split in Htick.
  exists l1, w, l2. rewrite Htick. simpl workers.
  repeat split; try assumption.
  - eapply Forall_impl; [|exact Hall]. intros x Hx. simpl in Hx.
    destruct (current_role x); congruence.
  - rewrite Hws, !count_role_split. simpl. rewrite Hr. simpl. lia.
  - rewrite Hws, !count_role_split. simpl. rewrite Hr. simpl. lia.
Qed.

(** X7: scale up.  Past the cooldown, with more than 10 requests in the
    LONG queue and more than one SHORT worker, the tick turns the first
    SHORT worker of the fixed order into a LONG worker, changes nothing
    else on the workers, and records the time. *)
Theorem scale_up_converts_first_short (now : Q) (s : Scheduler) :
  (5 <= now - last_rebalance_time s)%Q ->
  10 < List.length (queue_long s) ->
  1 < count_role SHORT (workers s) ->
  exists l1 w l2,
    workers s = l1 ++ w :: l2
    /\ Forall (fun x => current_role x = LONG) l1
    /\ current_role w = SHORT
    /\ qhap_tick now s
       = set_last_rebalance_time now
           (set_workers (l1 ++ set_role LONG w :: l2) s)
    /\ count_role SHORT (workers (qhap_tick now s))
       = count_role SHORT (workers s) - 1
    /\ count_role LONG (workers (qhap_tick now s))
       = count_role LONG (workers s) + 1.
Proof. exact (qhap_tick_scale_up now s). Qed.

Lemma scale_up_converts_first_short_witness :
  roles (qhap_tick 5 (scheduler backlog_world)) = [LONG; LONG; LONG; SHORT].
Proof.
  destruct (scale_up_converts_first_short 5 (scheduler backlog_world))
    as (l1 & w & l2 & _ & _ & _ & H & _).
  - vm_compute. discriminate.
  - vm_compute. repeat constructor.
  - vm_compute. repeat constructor.
  - vm_compute. reflexivity.
Defined.

Lemma qhap_tick_scale_down (now : Q) (s : Scheduler) :
  (5 <= now - last_rebalance_time s)%Q ->
  List.length (queue_long s) < 2 ->
  2 < count_role LONG (workers s) ->
  exists l1 w l2,
    workers s = l1 ++ w :: l2
    /\ Forall (fun x => current_role x = SHORT) l2
    /\ current_role w = LONG
    /\ qhap_tick now s
       = set_last_rebalance_time now
           (set_workers (l1 ++ set_role SHORT w :: l2) s)
    /\ count_role LONG (workers (qhap_tick now s))
       = count_role LONG (workers s) - 1
    /\ count_role SHORT (workers (qhap_tick now s))
       = count_role SHORT (workers s) + 1.
Proof.
  intros Hcd Hq Hn.
  destruct (first_with_role_found LONG (workers s)
                                  (rev (enumerate (workers s))))
    as [t Ht]; [intros p Hp; now apply in_rev in Hp | lia |].
  assert (Htick : qhap_tick now s
                  = set_last_rebalance_time now
                      (set_workers
                         (alter_at (set_role SHORT) t (workers s)) s)).
  { unfold qhap_tick, get_partition_status.
    rewrite (not_cooldown now s Hcd).
    assert (Hhigh : (HAP_HIGH_WATERMARK <? List.length (queue_long s)) = false)
      by (apply Nat.ltb_ge; unfold HAP_HIGH_WATERMARK; lia).
    apply Nat.ltb_lt in Hq. apply Nat.ltb_lt in Hn.
    unfold HAP_LOW_WATERMARK. rewrite Hhigh, Hq, Hn. simpl. now rewrite Ht. }
  apply first_with_role_last in Ht as (l1 & w & l2 & Hws & Hlen & Hr & Hall).
  simpl in Hlen. subst t. rewrite Hws, alter_at_split in Htick.
  exists l1, w, l2. rewrite Htick. simpl workers.
  repeat split; try assumption.
  - eapply Forall_impl; [|exact Hall]. intros x Hx. simpl in Hx.
    destruct (current_role x); congruence.
  - rewrite Hws, !count_role_split. simpl. rewrite Hr. simpl. lia.
  - rewrite Hws, !count_role_split. simpl. rewrite Hr. simpl. lia.
Qed.

(** X8: scale down.  Past the cooldown, with fewer than 2 requests in
    the LONG queue and more than two LONG workers, the tick turns the
    last LONG worker of the fixed order into a SHORT worker, changes
    nothing else on the workers, and records the time. *)
Theorem scale_down_converts_last_long (now : Q) (s : Scheduler) :
  (5 <= now - last_rebalance_time s)%Q ->
  List.length (queue_long s) < 2 ->
  2 < count_role LONG (workers s) ->
  exists l1 w l2,
    workers s = l1 ++ w :: l2
    /\ Forall (fun x => current_role x = SHORT) l2
    /\ current_role w = LONG
    /\ qhap_tick now s
       = set_last_rebalance_time now
           (set_workers (l1 ++ set_role SHORT w :: l2) s)
    /\ count_role LONG (workers (qhap_tick now s))
       = count_role LONG (workers s) - 1
    /\ count_role SHORT (workers (qhap_tick now s))
       = count_role SHORT (workers s) + 1.
Proof. exact (qhap_tick_scale_down now s). Qed.

Lemma scale_down_converts_last_long_witness :
  roles (qhap_tick 11 (scheduler drained_world)) = [LONG; LONG; SHORT; SHORT].
Proof.
  destruct (scale_down_converts_last_long 11 (scheduler drained_world))
    as (l1 & w & l2 & _ & _ & _ & H & _).
  - vm_compute. discriminate.
  - vm_compute. repeat constructor.
  - vm_compute. repeat constructor.
  - vm_compute. reflexivity.
Defined.

(** X9: a tick changes a role exactly when the cooldown has elapsed and
    either the LONG queue holds more than 10 requests while more than
    one worker is SHORT, or it holds fewer than 2 while more than two
    workers are LONG.  In particular nothing moves while the LONG queue
    holds between 2 and 10 requests. *)
Theorem qhap_tick_changes_roles_iff (now : Q) (s : Scheduler) :
  roles (qhap_tick now s) <> roles s
  <-> (5 <= now - last_rebalance_time s)%Q
      /\ ((10 < List.length (queue_long s)
           /\ 1 < count_role SHORT (workers s))
          \/ (List.length (queue_long s) < 2
              /\ 2 < count_role LONG (workers s))).
Proof.
  split.
  - intro Hne.
    destruct (qhap_tick_cases now s)
      as [E | (Hcd & l1 & w & l2 & _ &
               [(_ & Hq & Hn & _) | (_ & Hq & Hn & _)])].
    + rewrite E in Hne. now elim Hne.
    + split; [now apply Qnot_lt_le | left; split; assumption].
    + split; [now apply Qnot_lt_le | right; split; assumption].
  - intros [Hcd [[Hq Hn] | [Hq Hn]]].
    + destruct (qhap_tick_scale_up now s Hcd Hq Hn)
        as (l1 & w & l2 & Hws & _ & Hr & -> & _).
      unfold roles. simpl. rewrite Hws. apply roles_split_neq.
      rewrite Hr. discriminate.
    + destruct (qhap_tick_scale_down now s Hcd Hq Hn)
        as (l1 & w & l2 & Hws & _ & Hr & -> & _).
      unfold roles. simpl. rewrite Hws. apply roles_split_neq.
      rewrite Hr. discriminate.
Qed.

Lemma qhap_tick_changes_roles_iff_witness :
  roles (qhap_tick 5 (scheduler backlog_world))
  <> roles (scheduler backlog_world).
Proof.
  apply (qhap_tick_changes_roles_iff 5 (scheduler backlog_world)).
  split; [vm_compute; discriminate|].
  left. split; vm_compute; repeat constructor.
Defined.

Lemma qhap_tick_roles_balanced (now : Q) (s : Scheduler) :
  roles s = [LONG; LONG; SHORT; SHORT] ->
  roles (qhap_tick now s) = [LONG; LONG; SHORT; SHORT]
  \/ roles (qhap_tick now s) = [LONG; LONG; LONG; SHORT].
Proof.
  intro H. unfold roles in *.
  destruct (workers s) as [|a [|b [|c [|d [|e ws]]]]] eqn:E;
    try discriminate.
  simpl in H. injection H as Ha Hb Hc Hd.
  unfold qhap_tick, get_partition_status, count_role, enumerate.
  rewrite E.
  destruct (Qlt_bool _ _); [left; rewrite E; simpl; congruence|].
  simpl. rewrite Ha, Hb, Hc, Hd. simpl.
  destruct (HAP_HIGH_WATERMARK <? List.length (queue_long s)); simpl.
  - right. simpl. congruence.
  - rewrite andb_false_r. left. rewrite E. simpl. congruence.
Qed.

Lemma qhap_tick_roles_long_heavy (now : Q) (s : Scheduler) :
  roles s = [LONG; LONG; LONG; SHORT] ->
  roles (qhap_tick now s) = [LONG; LONG; LONG; SHORT]
  \/ roles (qhap_tick now s) = [LONG; LONG; SHORT; SHORT].
Proof.
  intro H. unfold roles in *.
  destruct (workers s) as [|a [|b [|c [|d [|e ws]]]]] eqn:E;
    try discriminate.
  simpl in H. injection H as Ha Hb Hc Hd.
  unfold qhap_tick, get_partition_status, count_role, enumerate.
  rewrite E.
  destruct (Qlt_bool _ _); [left; rewrite E; simpl; congruence|].
  simpl. rewrite Ha, Hb, Hc, Hd. simpl.
  rewrite andb_false_r.
  destruct (List.length (queue_long s) <? HAP_LOW_WATERMARK); simpl.
  - right. simpl. congruence.
  - left. rewrite E. simpl. congruence.
Qed.

(** X10: only worker 3 ever changes role.  Every reachable fleet is
    2 LONG / 2 SHORT or 3 LONG / 1 SHORT, with workers 1 and 2 LONG and
    worker 4 SHORT; the number of LONG workers never falls below the
    baseline of two. *)
Theorem reachable_roles (w : World) :
  reachable w ->
  (roles (scheduler w) = [LONG; LONG; SHORT; SHORT]
   \/ roles (scheduler w) = [LONG; LONG; LONG; SHORT])
  /\ 2 <= count_role LONG (workers (scheduler w)).
Proof.
  intro H.
  assert (Hr : roles (scheduler w) = [LONG; LONG; SHORT; SHORT]
               \/ roles (scheduler w) = [LONG; LONG; LONG; SHORT]).
  { induction H as [t0 | w e Hr IH].
    - left. reflexivity.
    - destruct (is_tick e) eqn:Ee.
      + destruct e as [| | |now]; try discriminate. simpl.
        destruct IH as [IH | IH].
        * now apply qhap_tick_roles_balanced.
        * destruct (qhap_tick_roles_long_heavy now _ IH); auto.
      + destruct (step_frame e w Ee) as [-> _]. exact IH. }
  split; [exact Hr|].
  rewrite count_role_roles. unfold roles in Hr.
  destruct Hr as [-> | ->]; simpl; lia.
Qed.

Lemma reachable_roles_witness :
  2 <= count_role LONG (workers (scheduler drained_world)).
Proof.
  apply (reachable_roles drained_world).
  unfold drained_world, backlog_world.
  apply reachable_run, reachable_run, reachable_init.
Defined.

(** * Further properties of the dispatch loop *)

Lemma set_queue_short_same (s : Scheduler) :
  set_queue_short (queue_short s) s = s.
Proof. now destruct s. Qed.

Lemma set_queue_long_same (s : Scheduler) :
  set_queue_long (queue_long s) s = s.
Proof. now destruct s. Qed.

Lemma try_get_worker_frame (now : Q) (s1 s2 : Scheduler) (c : TaskType) :
  workers s1 = workers s2 ->
  queue_short s1 = queue_short s2 ->
  try_get_worker now s1 c = try_get_worker now s2 c.
Proof.
  intros Hw Hq. unfold try_get_worker, home_candidates.
  now rewrite Hw, Hq.
Qed.

Lemma dispatch_short_closed (now : Q) (s : Scheduler) (q : list Pending) :
  dispatch_short now s q
  = match try_get_worker now s SHORT with
    | Some i => (set_queue_short [] s, run_tasks_on i q)
    | None => (set_queue_short q s, [])
    end.
Proof.
  induction q as [|[[f b] r] q IH].
  - simpl. now destruct (try_get_worker now s SHORT).
  - cbn [dispatch_short].
    rewrite (try_get_worker_short_workers now (set_queue_short _ s) s)
      by reflexivity.
    rewrite IH. now destruct (try_get_worker now s SHORT).
Qed.

Lemma dispatch_long_closed (now : Q) (s : Scheduler) (q : list Pending) :
  dispatch_long now s q
  = match try_get_worker now s LONG with
    | Some i => (set_queue_long [] s, run_tasks_on i q)
    | None => (set_queue_long q s, [])
    end.
Proof.
  induction q as [|[[f b] r] q IH].
  - simpl. now destruct (try_get_worker now s LONG).
  - cbn [dispatch_long].
    rewrite (try_get_worker_frame now (set_queue_long _ s) s LONG)
      by reflexivity.
    rewrite IH. now destruct (try_get_worker now s LONG).
Qed.

Lemma dispatch_queue_closed (now : Q) (s : Scheduler) :
  dispatch_queue now s
  = let r1 := try_get_worker now s SHORT in
    let s1 := match r1 with
              | Some _ => set_queue_short [] s
              | None => s
              end in
    let r2 := try_get_worker now s1 LONG in
    (match r2 with
     | Some _ => set_queue_long [] s1
     | None => s1
     end,
     match r1 with
     | Some i => run_tasks_on i (queue_short s)
     | None => []
     end
     ++ match r2 with
        | Some j => run_tasks_on j (queue_long s)
        | None => []
        end).
Proof.
  unfold dispatch_queue. rewrite dispatch_short_closed.
  destruct (try_get_worker now s SHORT) as [i|].
  - rewrite dispatch_long_closed. cbn zeta.
    destruct (try_get_worker now (set_queue_short [] s) LONG); reflexivity.
  - rewrite set_queue_short_same, dispatch_long_closed. cbn zeta.
    destruct (try_get_worker now s LONG);
      [reflexivity | now rewrite set_queue_long_same].
Qed.


(** X12: [dispatch_queue] runs to a fixed point: called again at the same
    instant on the state it left, it creates no task and changes
    nothing. *)
Theorem dispatch_queue_idempotent (now : Q) (s : Scheduler) :
  dispatch_queue now (fst (dispatch_queue now s))
  = (fst (dispatch_queue now s), []).
Proof.
  rewrite (dispatch_queue_closed now s). cbn zeta. cbn [fst].
  destruct (try_get_worker now s SHORT) as [i|] eqn:E1.
  - destruct (try_get_worker now (set_queue_short [] s) LONG) as [j|] eqn:E2.
    + rewrite dispatch_queue_closed. cbn zeta.
      rewrite (try_get_worker_short_workers now _ s) by reflexivity.
      rewrite E1.
      rewrite (try_get_worker_frame now _ (set_queue_short [] s) LONG)
        by reflexivity.
      rewrite E2. reflexivity.
    + rewrite dispatch_queue_closed. cbn zeta.
      rewrite (try_get_worker_short_workers now _ s) by reflexivity.
      rewrite E1.
      rewrite (try_get_worker_frame now _ (set_queue_short [] s) LONG)
        by reflexivity.
      rewrite E2. reflexivity.
  - destruct (try_get_worker now s LONG) as [j|] eqn:E2.
    + rewrite dispatch_queue_closed. cbn zeta.
      rewrite (try_get_worker_short_workers now _ s) by reflexivity.
      rewrite E1.
      rewrite (try_get_worker_frame now _ s LONG) by reflexivity.
      rewrite E2. reflexivity.
    + rewrite dispatch_queue_closed. cbn zeta. now rewrite E1, E2.
Qed.

Lemma dispatch_queue_served (now : Q) (s : Scheduler) :
  exists served_short served_long,
    queue_short s = served_short ++ queue_short (fst (dispatch_queue now s))
    /\ queue_long s = served_long ++ queue_long (fst (dispatch_queue now s))
    /\ map task_entry (snd (dispatch_queue now s))
       = map Some (served_short ++ served_long).
Proof.
  unfold dispatch_queue.
  destruct (dispatch_short_spec now s (queue_short s))
    as (ss & Hq1 & Hts1 & _ & Hl1 & _).
  destruct (dispatch_short now s (queue_short s)) as [s1 ts1].
  cbn [fst snd] in *.
  destruct (dispatch_long_spec now s1 (queue_long s1))
    as (sl & Hq2 & Hts2 & _ & Hs2 & _).
  destruct (dispatch_long now s1 (queue_long s1)) as [s2 ts2].
  cbn [fst snd] in *.
  exists ss, sl. repeat split.
  - now rewrite Hs2.
  - now rewrite <- Hl1.
  - now rewrite !map_app, Hts1, Hts2.
Qed.


(** * Further properties of the event loop *)

Lemma Forall_alter_at {A : Type} (P : A -> Prop) (g : A -> A) (i : nat)
      (l : list A) :
  Forall P l ->
  (forall x, nth_error l i = Some x -> P x -> P (g x)) ->
  Forall P (alter_at g i l).
Proof.
  intros Hall. revert i. induction Hall as [|x l Hx Hl IH]; intros i Hg.
  - destruct i; constructor.
  - destruct i as [|i]; simpl.
    + constructor; [apply Hg; auto | exact Hl].
    + constructor; [exact Hx | apply IH]. intros y Hy. now apply Hg.
Qed.

Lemma load_of_free_worker (now : Q) (s : Scheduler) (c : TaskType)
      (i : nat) (a : Z) :
  try_get_worker now s c = Some i ->
  nth_error (map active_requests (workers s)) i = Some a ->
  (a < WORKER_CONCURRENCY_LIMIT)%Z.
Proof.
  intros Hres Hn. rewrite nth_error_map in Hn.
  destruct (nth_error (workers s) i) as [wi|] eqn:E; [|discriminate].
  injection Hn as <-.
  destruct (try_get_worker_cases now s c i wi Hres E) as [Hcap _].
  now apply Z.ltb_lt.
Qed.

(** X14: only the start of a task created by [dispatch_queue] can take a
    worker past the concurrency limit: every other event (an arriving
    request, the end of a forward, a run of [dispatch_queue], a tick)
    keeps all loads within the limit. *)
Theorem limit_kept_outside_run_task (e : Event) (w : World) :
  within_limit w ->
  starts_run_task e w = false ->
  within_limit (step e w).
Proof.
  unfold within_limit, actives. intros Hlim Hno.
  destruct e as [now body request | now | now k o | now]; cbn [step].
  - unfold chat_completions.
    destruct (try_get_worker now (scheduler w) (classify body)) as [i|] eqn:E.
    + simpl.
      rewrite (map_alter_at active_requests inc_requests
                            (fun z => (z + 1)%Z)) by reflexivity.
      apply Forall_alter_at; [exact Hlim|].
      intros a Ha _. pose proof (load_of_free_worker _ _ _ _ _ E Ha). lia.
    + destruct (classify body); exact Hlim.
  - unfold run_ready. unfold starts_run_task in Hno.
    destruct (ready w) as [|[|i b r f] rest]; [exact Hlim | | discriminate].
    destruct (dispatch_queue_frame now (scheduler w)) as [Hw _].
    destruct (dispatch_queue now (scheduler w)) as [s' ts].
    cbn [fst] in Hw. simpl. now rewrite Hw.
  - unfold send_done. destruct (nth_error (sending w) k) as [fw|];
      [|exact Hlim].
    assert (H : Forall (fun a => (a <= WORKER_CONCURRENCY_LIMIT)%Z)
                       (alter_at (fun z => Z.max 0 (z - 1)) (fw_worker fw)
                                 (map active_requests
                                      (workers (scheduler w))))).
    { apply Forall_alter_at; [exact Hlim|].
      intros a _ Ha. unfold WORKER_CONCURRENCY_LIMIT in *. lia. }
    rewrite <- (map_alter_at active_requests (dec_requests now)) in H
      by reflexivity.
    unfold process_request_end, run_task_end.
    destruct (fw_awaiter fw); destruct o; exact H.
  - simpl. now rewrite qhap_tick_actives.
Qed.

Lemma limit_kept_outside_run_task_witness :
  within_limit (step (Ev_request 0 short_body 0) (World_init 0)).
Proof.
  apply limit_kept_outside_run_task.
  - repeat constructor; discriminate.
  - reflexivity.
Defined.

(** ** No queued request is lost or answered twice *)

Lemma occ_app (f : Future) (l1 l2 : list Future) :
  occ f (l1 ++ l2) = occ f l1 + occ f l2.
Proof. apply count_occ_app. Qed.

Lemma occ_single (f x : Future) :
  occ f [x] = if x =? f then 1 else 0.
Proof.
  unfold occ. simpl. destruct (Nat.eq_dec x f) as [-> | Hne].
  - now rewrite Nat.eqb_refl.
  - apply Nat.eqb_neq in Hne. now rewrite Hne.
Qed.

Lemma task_futures_of_entries (ts : list Task) (ps : list Pending) :
  map task_entry ts = map Some ps ->
  flat_map task_futures ts = map pending_future ps.
Proof.
  revert ps. induction ts as [|t ts IH]; intros [|p ps] H; simpl in *;
    try reflexivity; try discriminate.
  injection H as Ht Hts. destruct t as [|i b r f]; [discriminate|].
  injection Ht as <-. simpl. f_equal. now apply IH.
Qed.

Lemma occ_remove_at (f : Future) (g : Forward -> list Future) (k : nat)
      (l : list Forward) (x : Forward) :
  nth_error l k = Some x ->
  occ f (flat_map g l) = occ f (flat_map g (remove_at k l)) + occ f (g x).
Proof.
  revert k. induction l as [|y l IH]; intros [|k] H; simpl in *;
    try discriminate.
  - injection H as ->. rewrite occ_app. lia.
  - rewrite !occ_app, (IH k H). lia.
Qed.

Lemma stage_count_step (e : Event) (w : World) (f : Future) :
  stage_count f (step e w) + (if f <? next_future w then 1 else 0)
  = stage_count f w + (if f <? next_future (step e w) then 1 else 0).
Proof.
  assert (Hnil : occ f [] = 0) by reflexivity.
  destruct e as [now body request | now | now k o | now]; cbn [step].
  - unfold chat_completions.
    destruct (try_get_worker now (scheduler w) (classify body)) as [i|].
    + unfold stage_count, resolved_futures. simpl.
      rewrite flat_map_app, occ_app. simpl. lia.
    + assert (Hnew : (if f <? S (next_future w) then 1 else 0)
                     = (if f <? next_future w then 1 else 0)
                       + (if next_future w =? f then 1 else 0)).
      { destruct (Nat.ltb_spec f (S (next_future w)));
          destruct (Nat.ltb_spec f (next_future w));
          destruct (Nat.eqb_spec (next_future w) f); lia. }
      destruct (classify body); unfold stage_count, resolved_futures; simpl;
        rewrite map_app, occ_app; simpl map; rewrite occ_single;
        change (pending_future (next_future w, body, request))
          with (next_future w); lia.
  - unfold run_ready. destruct (ready w) as [|[|i b r f0] rest] eqn:Er.
    + lia.
    + destruct (dispatch_queue_served now (scheduler w))
        as (ss & sl & Hs & Hl & Hts).
      destruct (dispatch_queue now (scheduler w)) as [s' ts].
      cbn [fst snd] in *. apply task_futures_of_entries in Hts.
      unfold stage_count, resolved_futures. simpl.
      rewrite Er, Hs, Hl. simpl.
      rewrite flat_map_app, Hts, !map_app, !occ_app. lia.
    + unfold stage_count, resolved_futures. simpl. rewrite Er.
      rewrite flat_map_app, occ_app.
      change (flat_map task_futures (T_run_task i b r f0 :: rest))
        with ([f0] ++ flat_map task_futures rest).
      change (flat_map forward_futures [mkForward i (By_run_task f0)])
        with [f0].
      rewrite occ_app. lia.
  - unfold send_done. destruct (nth_error (sending w) k) as [fw|] eqn:Ek;
      [|lia].
    pose proof (occ_remove_at f forward_futures k _ _ Ek) as Hrem.
    assert (Hfw : forward_futures fw
                  = match fw_awaiter fw with
                    | By_run_task future => [future]
                    | By_handler _ => []
                    end) by reflexivity.
    rewrite Hfw in Hrem. clear Hfw.
    unfold process_request_end, run_task_end.
    destruct (fw_awaiter fw) as [r|f0]; destruct o;
      unfold stage_count, resolved_futures; simpl;
      rewrite ?flat_map_app, ?map_app, ?occ_app;
      cbn [flat_map task_futures app map fst]; lia.
  - destruct (qhap_tick_queues now (scheduler w)) as [Hl Hs].
    unfold stage_count, resolved_futures. simpl. rewrite Hl, Hs. lia.
Qed.

Lemma reachable_stage_count (w : World) (f : Future) :
  reachable w ->
  stage_count f w = if f <? next_future w then 1 else 0.
Proof.
  induction 1 as [t0 | w e Hr IH].
  - reflexivity.
  - pose proof (stage_count_step e w f) as H. lia.
Qed.

(** X15: no queued request is lost or answered twice.  In every reachable
    state each future created so far is in exactly one place (a wait
    queue, a created [run_task], a forward in flight, or resolved) and
    no other future is anywhere; so no future is resolved twice. *)
Theorem queued_requests_conserved (w : World) :
  reachable w ->
  (forall f, stage_count f w = if f <? next_future w then 1 else 0)
  /\ NoDup (resolved_futures w).
Proof.
  intro Hr. split.
  - intro f. now apply reachable_stage_count.
  - apply (NoDup_count_occ Nat.eq_dec). intro f.
    pose proof (reachable_stage_count w f Hr) as H.
    unfold stage_count, occ in H.
    destruct (f <? next_future w); lia.
Qed.

Lemma queued_requests_conserved_witness :
  NoDup (resolved_futures
           (step (Ev_send_done 2 15 (Send_returns 500))
                 queued_forward_world)).
Proof.
  destruct (queued_requests_conserved
              (step (Ev_send_done 2 15 (Send_returns 500))
                    queued_forward_world)) as [_ H].
  - apply reachable_step. unfold queued_forward_world.
    apply reachable_run, reachable_init.
  - exact H.
Defined.

Lemma capacity_conservation_witness :
  (count_calls (is_inc 2) (calls (run overload_trace (World_init 0)))
   - count_calls (is_dec 2) (calls (run overload_trace (World_init 0))))%Z
  = 9%Z.
Proof.
  destruct (capacity_conservation
              (run overload_trace (World_init 0)) 2
              (mkWorker 3 "http://localhost:8003/v1/chat/completions"
                        SHORT 9 0)) as (H & _).
  - apply reachable_run, reachable_init.
  - vm_compute. reflexivity.
  - exact (eq_sym H).
Defined.

(** ** A direct placement and its release *)

Lemma reachable_accounted (w : World) : reachable w -> accounted w.
Proof.
  induction 1 as [t0 | w e Hr IH].
  - intros j a Hj. unfold actives in Hj. simpl in Hj.
    destruct j as [|[|[|[|[|j]]]]]; simpl in Hj; try discriminate;
      injection Hj as <-; split; reflexivity.
  - now apply accounted_step.
Qed.

Lemma alter_at_twice {A : Type} (f g : A -> A) (i : nat) (l : list A) :
  alter_at g i (alter_at f i l) = alter_at (fun x => g (f x)) i l.
Proof.
  revert i. induction l as [|x l IH]; intros [|i]; simpl; try reflexivity.
  now rewrite IH.
Qed.

Lemma alter_at_fixed {A : Type} (h : A -> A) (i : nat) (l : list A) :
  (forall x, nth_error l i = Some x -> h x = x) ->
  alter_at h i l = l.
Proof.
  revert i. induction l as [|x l IH]; intros [|i] H; simpl;
    try reflexivity.
  - now rewrite (H x eq_refl).
  - rewrite IH; [reflexivity | exact H].
Qed.

Lemma remove_at_last {A : Type} (l : list A) (x : A) :
  remove_at (List.length l) (l ++ [x]) = l.
Proof. induction l as [|y l IH]; simpl; [reflexivity | now rewrite IH]. Qed.

Lemma nth_error_last {A : Type} (l : list A) (x : A) :
  nth_error (l ++ [x]) (List.length l) = Some x.
Proof. induction l as [|y l IH]; simpl; [reflexivity | exact IH]. Qed.

(** X16: a direct placement followed by the end of its forward is a round
    trip on the loads.  From a reachable state, when a request is placed
    at once on worker [i] and its forward then ends (with any outcome),
    every load and the list of forwards in flight are as before the
    request; worker [i] got one [inc_requests] and one [dec_requests],
    the handler got the outcome, and one [dispatch_queue] is
    scheduled. *)
Theorem direct_forward_round_trip (now now' : Q) (body : Body)
        (request : Request) (o : SendOutcome) (w : World) (i : nat) :
  reachable w ->
  try_get_worker now (scheduler w) (classify body) = Some i ->
  actives (step (Ev_send_done now' (List.length (sending w)) o)
                (step (Ev_request now body request) w))
  = actives w
  /\ sending (step (Ev_send_done now' (List.length (sending w)) o)
                   (step (Ev_request now body request) w))
     = sending w
  /\ calls (step (Ev_send_done now' (List.length (sending w)) o)
                 (step (Ev_request now body request) w))
     = calls w ++ [Call_inc i; Call_dec i]
  /\ replies (step (Ev_send_done now' (List.length (sending w)) o)
                   (step (Ev_request now body request) w))
     = replies w ++ [(request, completion_of o)]
  /\ ready (step (Ev_send_done now' (List.length (sending w)) o)
                 (step (Ev_request now body request) w))
     = ready w ++ [T_dispatch_queue].
Proof.
  intros Hr Hres. cbn [step]. unfold chat_completions. rewrite Hres.
  unfold send_done, process_request_begin.
  cbn [sending with_sending with_calls alter_worker with_scheduler].
  rewrite nth_error_last, remove_at_last.
  cbn [fw_worker fw_awaiter]. unfold process_request_end.
  split; [|split; [|split; [|split]]].
  - unfold actives. cbn. rewrite alter_at_twice.
    rewrite (map_alter_at active_requests _ (fun z => Z.max 0 (z + 1 - 1)))
      by reflexivity.
    apply alter_at_fixed. intros a Ha.
    destruct (reachable_accounted w Hr i a Ha) as [Hl _].
    unfold load in Hl. lia.
  - reflexivity.
  - cbn. now rewrite <- app_assoc.
  - destruct o; reflexivity.
  - reflexivity.
Qed.

Lemma direct_forward_round_trip_witness :
  actives (step (Ev_send_done 1 0 (Send_raises "ConnectError"))
                (step (Ev_request 0 short_body 0) (World_init 0)))
  = actives (World_init 0).
Proof.
  apply (direct_forward_round_trip 0 1 short_body 0
           (Send_raises "ConnectError") (World_init 0) 2).
  - apply reachable_init.
  - vm_compute. reflexivity.
Defined.

(** * The earlier variant and the baselines *)

Lemma busy_flag_filter_first (c : TaskType) (l1 l2 : list BusyFlag.Worker)
      (w : BusyFlag.Worker) (k : nat) :
  Forall (fun x => TaskType_eqb (BusyFlag.current_role x) c
                   && negb (BusyFlag.is_busy x) = false) l1 ->
  BusyFlag.current_role w = c ->
  BusyFlag.is_busy w = false ->
  exists rest,
    filter (fun p => TaskType_eqb (BusyFlag.current_role (snd p)) c
                     && negb (BusyFlag.is_busy (snd p)))
           (enumerate_from k (l1 ++ w :: l2))
    = (k + List.length l1, w) :: rest.
Proof.
  revert k. induction l1 as [|x l1 IH]; intros k Hall Hr Hb.
  - simpl. rewrite Hr, Hb, TaskType_eqb_refl. simpl.
    rewrite Nat.add_0_r. eauto.
  - inversion Hall as [|? ? Hx Hrest]; subst. simpl. rewrite Hx.
    destruct (IH (S k) Hrest eq_refl Hb) as [rest Hf].
    exists rest. rewrite Hf. do 2 f_equal. lia.
Qed.

(** X18: in the busy-flag variant the home placement is first fit: a
    request gets the earliest worker of the fixed order whose role is
    the requested class and that is not busy. *)
Theorem busy_flag_home_first_fit (now : Q) (s : BusyFlag.Scheduler)
        (c : TaskType) (l1 l2 : list BusyFlag.Worker) (w : BusyFlag.Worker) :
  BusyFlag.workers s = l1 ++ w :: l2 ->
  Forall (fun x => TaskType_eqb (BusyFlag.current_role x) c
                   && negb (BusyFlag.is_busy x) = false) l1 ->
  BusyFlag.current_role w = c ->
  BusyFlag.is_busy w = false ->
  BusyFlag.try_get_worker now s c = Some (List.length l1).
Proof.
  intros Hws Hall Hr Hb. unfold BusyFlag.try_get_worker, enumerate.
  rewrite Hws.
  destruct (busy_flag_filter_first c l1 l2 w 0 Hall Hr Hb) as [rest ->].
  reflexivity.
Qed.

Lemma busy_flag_home_first_fit_witness :
  BusyFlag.try_get_worker 0
    (BusyFlag.mkScheduler
       [BusyFlag.mkWorker 1 "a" LONG false 0;
        BusyFlag.mkWorker 2 "b" LONG false 0;
        BusyFlag.mkWorker 3 "c" SHORT true 0;
        BusyFlag.mkWorker 4 "d" SHORT false 0] [] [] 0) SHORT
  = Some 3.
Proof.
  apply (busy_flag_home_first_fit 0 _ SHORT
           [BusyFlag.mkWorker 1 "a" LONG false 0;
            BusyFlag.mkWorker 2 "b" LONG false 0;
            BusyFlag.mkWorker 3 "c" SHORT true 0]
           [] (BusyFlag.mkWorker 4 "d" SHORT false 0));
    try reflexivity.
  repeat constructor.
Defined.

Lemma static_concat_length (msgs : list Message) (txt : string) :
  String.length (StaticRouter.concat_contents txt msgs)
  = String.length txt
    + list_sum (map (fun m => String.length (content_str m)) msgs).
Proof.
  revert txt. induction msgs as [|m msgs IH]; intro txt; simpl.
  - lia.
  - rewrite IH, length_append. lia.
Qed.

Lemma smart_concat_length (msgs : list Message) (txt : string) :
  String.length (SmartRouter.concat_contents txt msgs)
  = String.length txt
    + list_sum (map (fun m => String.length (content_str m)) msgs).
Proof.
  revert txt. induction msgs as [|m msgs IH]; intro txt; simpl.
  - lia.
  - unfold content_str at 1.
    destruct (content m) as [[|c r]|]; rewrite IH, ?length_append; simpl;
      lia.
Qed.

(** X19: the three routers measure and classify alike.  On every body
    the estimators of the static baseline, of the monitoring baseline
    and of the adaptive router return the same number, and with the
    threshold at 3000 the static baseline sends a request to its long
    lane exactly when the adaptive router classifies it LONG. *)
Theorem routers_estimate_alike (url_long url_short : string) (body : Body) :
  StaticRouter.estimate_token_count (StaticRouter.body_messages body)
  = estimate_token_count (messages body)
  /\ SmartRouter.estimate_token_count (messages body)
     = estimate_token_count (messages body)
  /\ (StaticRouter.route url_long url_short 3000 body
      = (url_long, "[LONG -> A]"%string)
      <-> classify body = LONG).
Proof.
  assert (Hs : StaticRouter.estimate_token_count
                 (StaticRouter.body_messages body)
               = estimate_token_count (messages body)).
  { rewrite estimate_token_count_cost.
    unfold StaticRouter.estimate_token_count, StaticRouter.body_messages,
      estimate_cost, total_content_chars.
    destruct (messages body) as [ms|]; [|reflexivity].
    now rewrite static_concat_length, content_chars_sum. }
  split; [exact Hs | split].
  - rewrite estimate_token_count_cost.
    unfold SmartRouter.estimate_token_count, estimate_cost,
      total_content_chars.
    destruct (messages body) as [[|m ms]|]; try reflexivity.
    now rewrite smart_concat_length, content_chars_sum.
  - unfold StaticRouter.route, classify. rewrite Hs.
    unfold STATIC_THRESHOLD.
    destruct (3000 <? estimate_token_count (messages body)).
    + split; reflexivity.
    + split; intro H; [injection H as _ H|]; discriminate.
Qed.

(** * Generated workloads meet the classifier *)

Lemma length_repeat_str (s : string) (n : nat) :
  String.length (Workload.repeat_str s n) = n * String.length s.
Proof.
  induction n as [|n IH]; simpl; [reflexivity|].
  now rewrite length_append, IH.
Qed.

Lemma length_slice_to (n : nat) (s : string) :
  String.length (Workload.slice_to n s) = Nat.min n (String.length s).
Proof.
  revert s. induction n as [|n IH]; intros [|c r]; simpl; try reflexivity.
  now rewrite IH.
Qed.

Lemma length_BASE_TEXT : String.length Workload.BASE_TEXT = 2000 * 45.
Proof. unfold Workload.BASE_TEXT. now rewrite length_repeat_str. Qed.

Lemma estimate_payload (prompt : string) :
  estimate_token_count (messages (Workload.payload prompt))
  = String.length prompt / 4.
Proof.
  rewrite estimate_token_count_cost.
  unfold estimate_cost, total_content_chars. simpl.
  now rewrite Nat.add_0_r.
Qed.

Lemma classify_payload (prompt : string) :
  classify (Workload.payload prompt)
  = if (12004 <=? Z.of_nat (String.length prompt))%Z then LONG else SHORT.
Proof.
  unfold classify. rewrite estimate_payload. unfold STATIC_THRESHOLD.
  destruct (Nat.ltb_spec 3000 (String.length prompt / 4)) as [H | H];
    destruct (Z.leb_spec 12004 (Z.of_nat (String.length prompt)))
      as [H' | H']; try reflexivity; exfalso.
  - assert (String.length prompt / 4 < 3001); [|lia].
    apply Nat.Div0.div_lt_upper_bound. lia.
  - assert (3001 <= String.length prompt / 4); [|lia].
    apply Nat.div_le_lower_bound; lia.
Qed.

Lemma length_get_dummy_prompt (uuid : string) (token_len : nat) :
  Z.of_nat (String.length (Workload.get_dummy_prompt uuid token_len))
  = Z.max (Z.of_nat token_len * 4)
          (20 * (Z.of_nat (String.length uuid) + 17)).
Proof.
  unfold Workload.get_dummy_prompt.
  set (header := Workload.repeat_str _ 20).
  assert (Hh : Z.of_nat (String.length header)
               = (20 * (Z.of_nat (String.length uuid) + 17))%Z).
  { unfold header. rewrite length_repeat_str, !length_append.
    change (String.length "Random Task ID ") with 15.
    change (String.length ": ") with 2. lia. }
  rewrite length_append.
  pose proof length_BASE_TEXT as HL.
  set (L := String.length Workload.BASE_TEXT) in *.
  set (r := Z.max 0 (Z.of_nat token_len * 4 - Z.of_nat (String.length header))).
  assert (Hr0 : (0 <= r)%Z) by (unfold r; lia).
  destruct (Z.gtb_spec r 0) as [Hpos | Hz].
  - destruct (Z.gtb_spec r (Z.of_nat L)) as [Hbig | Hsmall].
    + rewrite length_slice_to, length_repeat_str. fold L.
      assert (Hcover : (r < (r / Z.of_nat L + 1) * Z.of_nat L)%Z).
      { pose proof (Z.mod_pos_bound r (Z.of_nat L) ltac:(lia)) as Hm.
        pose proof (Z.div_mod r (Z.of_nat L) ltac:(lia)) as Hd. nia. }
      assert (Hq : (0 <= r / Z.of_nat L)%Z)
        by (apply Z.div_pos; lia).
      rewrite Nat.min_l; [unfold r in *; lia|].
      apply Nat2Z.inj_le. rewrite Nat2Z.inj_mul, !Z2Nat.id by lia. lia.
    + rewrite length_slice_to. fold L.
      rewrite Nat.min_l by lia. unfold r in *. lia.
  - change (String.length EmptyString) with 0. unfold r in *. lia.
Qed.

(** X20: a mock prompt has the length asked for, but never less than its
    random header: [get_dummy_prompt(token_len)] returns
    [max(4 * token_len, 1060)] characters when the UUID text has its
    36 characters.  Sent by the benchmark client it is classified LONG
    exactly when [token_len > 3000]; so the mock chat prompts (100 to
    500 tokens, or 300) are SHORT and the mock analysis prompts (6000
    to 7500 tokens, or 7000) are LONG. *)
Theorem dummy_prompt_length_and_class (uuid : string) (token_len : nat) :
  String.length uuid = 36 ->
  Z.of_nat (String.length (Workload.get_dummy_prompt uuid token_len))
  = Z.max (4 * Z.of_nat token_len) 1060
  /\ classify (Workload.payload (Workload.get_dummy_prompt uuid token_len))
     = (if 3000 <? token_len then LONG else SHORT).
Proof.
  intro Hu.
  pose proof (length_get_dummy_prompt uuid token_len) as Hlen.
  rewrite Hu in Hlen. split; [lia|].
  rewrite classify_payload.
  destruct (Nat.ltb_spec 3000 token_len);
    destruct (Z.leb_spec 12004
                (Z.of_nat (String.length
                             (Workload.get_dummy_prompt uuid token_len))));
    try reflexivity; lia.
Qed.

Lemma dummy_prompt_length_and_class_witness :
  classify (Workload.payload
              (Workload.get_dummy_prompt
                 "123e4567-e89b-42d3-a456-426614174000" 300))
  = SHORT.
Proof.
  destruct (dummy_prompt_length_and_class
              "123e4567-e89b-42d3-a456-426614174000" 300) as [_ H].
  - reflexivity.
  - exact H.
Defined.

(** X21: a prompt of the verification trace has exactly
    [4 * prompt_len] characters, so the router's estimate gives back
    [prompt_len] and the request is LONG exactly when
    [prompt_len > 3000]. *)
Theorem verification_prompt_estimate (prompt_len : nat) :
  String.length (Workload.verification_prompt prompt_len) = 4 * prompt_len
  /\ estimate_token_count
       (messages (Workload.payload (Workload.verification_prompt prompt_len)))
     = prompt_len
  /\ classify (Workload.payload (Workload.verification_prompt prompt_len))
     = (if 3000 <? prompt_len then LONG else SHORT).
Proof.
  assert (Hlen : String.length (Workload.verification_prompt prompt_len)
                 = 4 * prompt_len).
  { unfold Workload.verification_prompt.
    rewrite length_slice_to, length_repeat_str.
    pose proof length_BASE_TEXT as HL.
    set (L := String.length Workload.BASE_TEXT) in *.
    pose proof (Nat.mul_succ_div_gt (prompt_len * 4) L ltac:(lia)) as Hc.
    rewrite Nat.min_l; [lia|]. rewrite Nat.add_1_r. lia. }
  split; [exact Hlen | split].
  - rewrite estimate_payload, Hlen, Nat.mul_comm. now apply Nat.div_mul.
  - unfold classify. rewrite estimate_payload, Hlen, Nat.mul_comm.
    now rewrite Nat.div_mul.
Qed.

(** ** Prompts from the local data sets *)

Lemma load_sharegpt_inv (P : string -> Prop) (data : list (list RealTrace.Turn))
      (acc : list string) :
  (forall p, (0 < Z.of_nat (String.length p) < 2000)%Z -> P p) ->
  Forall P acc ->
  Forall P (RealTrace.load_sharegpt data acc).
Proof.
  intro HP. revert acc.
  induction data as [|convs data IH]; intros acc Hacc; simpl; [exact Hacc|].
  destruct convs as [|t convs]; [now apply IH|].
  set (prompt := RealTrace.first_human_value (t :: convs)).
  assert (Hnew : Forall P
            (if match prompt with EmptyString => false | String _ _ => true end
                && (Z.of_nat (String.length prompt) <? 2000)%Z
             then acc ++ [prompt] else acc)).
  { destruct (match prompt with EmptyString => false | String _ _ => true end)
      eqn:Ene; cbn [andb]; [|exact Hacc].
    destruct (Z.ltb_spec (Z.of_nat (String.length prompt)) 2000);
      [|exact Hacc].
    apply Forall_app. split; [exact Hacc|]. constructor; [|constructor].
    apply HP. destruct prompt; [discriminate|].
    cbn [String.length] in *. lia. }
  destruct (5000 <=? _)%Z; [exact Hnew | now apply IH].
Qed.

Lemma load_sharegpt_length (data : list (list RealTrace.Turn))
      (acc : list string) :
  (Z.of_nat (List.length acc) < 5000)%Z ->
  (Z.of_nat (List.length (RealTrace.load_sharegpt data acc)) <= 5000)%Z.
Proof.
  revert acc. induction data as [|convs data IH]; intros acc Hacc; simpl;
    [lia|].
  destruct convs as [|t convs]; [now apply IH|].
  set (prompt := RealTrace.first_human_value (t :: convs)).
  destruct (match prompt with EmptyString => false | String _ _ => true end
            && (Z.of_nat (String.length prompt) <? 2000)%Z).
  - destruct (Z.leb_spec 5000 (Z.of_nat (List.length (acc ++ [prompt]))))
      as [H | H].
    + rewrite length_app in *. simpl in *. lia.
    + now apply IH.
  - destruct (Z.leb_spec 5000 (Z.of_nat (List.length acc))); [lia|].
    now apply IH.
Qed.

(** X22: every ShareGPT prompt the real trace can use is a non-empty text
    of fewer than 2000 characters, so the router classifies it SHORT;
    at most 5000 prompts are loaded. *)
Theorem sharegpt_prompts_are_short (data : list (list RealTrace.Turn)) :
  Forall (fun p => (0 < Z.of_nat (String.length p) < 2000)%Z
                   /\ classify (Workload.payload p) = SHORT)
         (RealTrace.load_sharegpt data [])
  /\ (Z.of_nat (List.length (RealTrace.load_sharegpt data [])) <= 5000)%Z.
Proof.
  split.
  - apply load_sharegpt_inv; [|constructor].
    intros p Hp. split; [exact Hp|].
    rewrite classify_payload.
    destruct (Z.leb_spec 12004 (Z.of_nat (String.length p)));
      [lia | reflexivity].
  - apply load_sharegpt_length. simpl. lia.
Qed.

Lemma length_full_prompt (item : RealTrace.Item) :
  (Z.of_nat (String.length (RealTrace.full_prompt item)) <= 32000)%Z.
Proof.
  unfold RealTrace.full_prompt.
  set (p := ("Context: " ++ _)%string).
  destruct (Z.gtb_spec (Z.of_nat (String.length p)) 32000) as [H | H].
  - rewrite length_slice_to. lia.
  - exact H.
Qed.

Lemma load_longbench_inv (P : string -> Prop) (lines : list RealTrace.Item)
      (acc : list string) (count : Z) :
  (forall p, (5000 < Z.of_nat (String.length p) <= 32000)%Z -> P p) ->
  Forall P acc ->
  Forall P (RealTrace.load_longbench lines acc count).
Proof.
  intro HP. revert acc count.
  induction lines as [|item lines IH]; intros acc count Hacc; simpl;
    [exact Hacc|].
  pose proof (length_full_prompt item) as Hmax.
  destruct (Z.gtb_spec (Z.of_nat (String.length (RealTrace.full_prompt item)))
                       5000) as [Hk | Hk].
  - assert (Hnew : Forall P (acc ++ [RealTrace.full_prompt item])).
    { apply Forall_app. split; [exact Hacc|]. constructor; [|constructor].
      apply HP. lia. }
    destruct (1000 <=? count + 1)%Z; [exact Hnew | now apply IH].
  - destruct (1000 <=? count)%Z; [exact Hacc | now apply IH].
Qed.

Lemma load_longbench_length (lines : list RealTrace.Item)
      (acc : list string) (count : Z) :
  Z.of_nat (List.length acc) = count ->
  (count < 1000)%Z ->
  (Z.of_nat (List.length (RealTrace.load_longbench lines acc count))
   <= 1000)%Z.
Proof.
  revert acc count.
  induction lines as [|item lines IH]; intros acc count Hlen Hc; simpl;
    [lia|].
  destruct (Z.of_nat (String.length (RealTrace.full_prompt item)) >? 5000)%Z.
  - destruct (Z.leb_spec 1000 (count + 1)) as [H | H].
    + rewrite length_app. simpl. lia.
    + apply IH; [|exact H]. rewrite length_app. simpl. lia.
  - destruct (Z.leb_spec 1000 count) as [H | H]; [lia|].
    now apply IH.
Qed.

(** X23: every LongBench prompt the real trace can use has more than 5000
    and at most 32000 characters, and the router classifies it LONG
    exactly when it has at least 12004 characters: the prompts of 5001
    to 12003 characters, which the trace labels as analysis, are SHORT
    requests for the router.  At most 1000 prompts are loaded. *)
Theorem longbench_prompts_and_class (lines : list RealTrace.Item) :
  Forall (fun p => (5000 < Z.of_nat (String.length p) <= 32000)%Z
                   /\ (classify (Workload.payload p) = LONG
                       <-> (12004 <= Z.of_nat (String.length p))%Z))
         (RealTrace.load_longbench lines [] 0)
  /\ (Z.of_nat (List.length (RealTrace.load_longbench lines [] 0))
      <= 1000)%Z.
Proof.
  split.
  - apply load_longbench_inv; [|constructor].
    intros p Hp. split; [exact Hp|].
    rewrite classify_payload.
    destruct (Z.leb_spec 12004 (Z.of_nat (String.length p)));
      split; intro; try reflexivity; try discriminate; lia.
  - apply load_longbench_length; [reflexivity | lia].
Qed.

(** * The sliding-window monitor *)

Lemma filter_all {A : Type} (f : A -> bool) (l : list A) :
  Forall (fun x => f x = true) l -> filter f l = l.
Proof.
  induction 1 as [|x l Hx Hl IH]; simpl; [reflexivity|].
  now rewrite Hx, IH.
Qed.

Lemma drop_expired_filter (window : Z) (now : Q) (h : list (Q * nat)) :
  Monitor.chronological now h ->
  Monitor.drop_expired window now h
  = filter (Monitor.in_window window now) h.
Proof.
  induction h as [|[t n] h IH]; intro Hc; [reflexivity|].
  destruct Hc as (Ht & Hall & Hrest).
  cbn [Monitor.drop_expired filter]. unfold Monitor.in_window at 1.
  cbn [fst].
  destruct (Qlt_bool (inject_Z window) (now - t)) eqn:E; cbn [negb].
  - now apply IH.
  - f_equal. symmetry. apply filter_all.
    eapply Forall_impl; [|exact Hall].
    intros [t' n'] Hle. cbn [fst] in Hle.
    unfold Monitor.in_window. cbn [fst].
    destruct (Qlt_bool (inject_Z window) (now - t')) eqn:E'; [|reflexivity].
    exfalso. apply Qlt_bool_iff in E'.
    assert (Hlt : (inject_Z window < now - t)%Q) by lra.
    apply Qlt_bool_iff in Hlt. congruence.
Qed.

Lemma chronological_snoc (now now' : Q) (n : nat) (h : list (Q * nat)) :
  Monitor.chronological now h ->
  (now <= now')%Q ->
  Monitor.chronological now' (h ++ [(now', n)]).
Proof.
  intros Hc Hle. induction h as [|[t k] h IH]; simpl.
  - repeat split; [apply Qle_refl | constructor].
  - destruct Hc as (Ht & Hall & Hrest). repeat split.
    + lra.
    + apply Forall_app. split; [exact Hall|].
      constructor; [|constructor]. simpl. lra.
    + now apply IH.
Qed.

Lemma chronological_filter (now : Q) (f : Q * nat -> bool)
      (h : list (Q * nat)) :
  Monitor.chronological now h -> Monitor.chronological now (filter f h).
Proof.
  induction h as [|[t k] h IH]; intro Hc; [exact I|].
  destruct Hc as (Ht & Hall & Hrest). simpl.
  destruct (f (t, k)); [|now apply IH].
  simpl. repeat split; [exact Ht | | now apply IH].
  apply Forall_forall. intros e He. apply filter_In in He as [He _].
  rewrite Forall_forall in Hall. now apply Hall.
Qed.

(** X24: with a clock that does not run backwards, [record_request] keeps
    exactly the requests of the last [window] seconds: the history
    after it is the old history plus the new entry, without the entries
    older than the window and in the same order; it is chronological
    again, and [total_reqs] counts one more request. *)
Theorem record_request_keeps_window (now now' : Q) (token_len : nat)
        (m : Monitor.TrafficMonitor) :
  Monitor.chronological now (Monitor.history m) ->
  (now <= now')%Q ->
  Monitor.history (Monitor.record_request now' token_len m)
  = filter (Monitor.in_window (Monitor.window m) now')
           (Monitor.history m ++ [(now', token_len)])
  /\ Monitor.chronological now'
       (Monitor.history (Monitor.record_request now' token_len m))
  /\ Monitor.total_reqs (Monitor.record_request now' token_len m)
     = S (Monitor.total_reqs m)
  /\ Monitor.window (Monitor.record_request now' token_len m)
     = Monitor.window m.
Proof.
  intros Hc Hle.
  pose proof (chronological_snoc now now' token_len _ Hc Hle) as Hc'.
  unfold Monitor.record_request, Monitor._cleanup. cbn.
  rewrite (drop_expired_filter _ _ _ Hc').
  repeat split. now apply chronological_filter.
Qed.

Lemma record_request_keeps_window_witness :
  Monitor.history
    (Monitor.record_request 12 7
       (Monitor.mkMonitor 10 [(1%Q, 100); (5%Q, 200)] 2))
  = [(5%Q, 200); (12%Q, 7)].
Proof.
  destruct (record_request_keeps_window 5 12 7
              (Monitor.mkMonitor 10 [(1%Q, 100); (5%Q, 200)] 2)) as [H _].
  - simpl. split; [vm_compute; discriminate|]. split.
    + constructor; [vm_compute; discriminate | constructor].
    + split; [vm_compute; discriminate|]. split; [constructor | exact I].
  - vm_compute. discriminate.
  - rewrite H. vm_compute. reflexivity.
Defined.

(** X25: the new request itself stays in the window exactly when the
    window is not negative; with a negative window [record_request]
    empties a chronological history. *)
Theorem record_request_keeps_new_entry (now now' : Q) (token_len : nat)
        (m : Monitor.TrafficMonitor) :
  Monitor.chronological now (Monitor.history m) ->
  (now <= now')%Q ->
  ((0 <= Monitor.window m)%Z ->
   exists older,
     Monitor.history (Monitor.record_request now' token_len m)
     = older ++ [(now', token_len)])
  /\ ((Monitor.window m < 0)%Z ->
      Monitor.history (Monitor.record_request now' token_len m) = []).
Proof.
  intros Hc Hle.
  pose proof (chronological_snoc now now' token_len _ Hc Hle) as Hc'.
  unfold Monitor.record_request, Monitor._cleanup. cbn.
  rewrite (drop_expired_filter _ _ _ Hc'), filter_app. cbn [filter].
  unfold Monitor.in_window at 2 4. cbn [fst].
  assert (Hnow : (now' - now' == 0)%Q) by ring.
  split; intro Hw.
  - assert (E : Qlt_bool (inject_Z (Monitor.window m)) (now' - now') = false).
    { destruct (Qlt_bool _ _) eqn:E; [|reflexivity].
      apply Qlt_bool_iff in E. rewrite Hnow in E. exfalso.
      assert (H0 : (inject_Z 0 <= inject_Z (Monitor.window m))%Q)
        by (rewrite <- Zle_Qle; exact Hw).
      exact (Qlt_not_le _ _ E H0). }
    rewrite E. cbn [negb]. eauto.
  - assert (E : Qlt_bool (inject_Z (Monitor.window m)) (now' - now') = true).
    { apply Qlt_bool_iff. rewrite Hnow.
      change 0%Q with (inject_Z 0). rewrite <- Zlt_Qlt. exact Hw. }
    rewrite E. cbn [negb]. rewrite app_nil_r.
    apply filter_nil_iff. intros [t k] Hin.
    unfold Monitor.in_window. cbn [fst].
    assert (Ht : (t <= now')%Q).
    { clear - Hc Hle Hin. induction (Monitor.history m) as [|[t0 k0] h IH];
        [destruct Hin|].
      destruct Hc as (Ht0 & _ & Hrest).
      destruct Hin as [Heq | Hin]; [injection Heq as <- _; lra | auto]. }
    assert (Hlt : (inject_Z (Monitor.window m) < now' - t)%Q).
    { apply Qlt_bool_iff in E. lra. }
    apply Qlt_bool_iff in Hlt. now rewrite Hlt.
Qed.

Lemma record_request_keeps_new_entry_witness :
  exists older,
    Monitor.history
      (Monitor.record_request 12 7
         (Monitor.mkMonitor 10 [(1%Q, 100); (5%Q, 200)] 2))
    = older ++ [(12%Q, 7)].
Proof.
  destruct (record_request_keeps_new_entry 5 12 7
              (Monitor.mkMonitor 10 [(1%Q, 100); (5%Q, 200)] 2)) as [H _].
  - simpl. split; [vm_compute; discriminate|]. split.
    + constructor; [vm_compute; discriminate | constructor].
    + split; [vm_compute; discriminate|]. split; [constructor | exact I].
  - vm_compute. discriminate.
  - apply H. simpl. lia.
Defined.

(** * Arrivals and the wait queues *)

(** X17: an arriving request does not look at the wait queues of its
    class.  Whenever some worker of its class has a free slot, the
    request is placed at once, ahead of every request still waiting in
    the queues, which stay as they are. *)
Theorem arrival_overtakes_queue (now : Q) (body : Body) (request : Request)
        (w : World) (j : nat) (wj : Worker) :
  nth_error (workers (scheduler w)) j = Some wj ->
  home_free (classify body) wj = true ->
  exists i,
    step (Ev_request now body request) w
    = process_request_begin i (By_handler request) w
    /\ queue_short (scheduler (step (Ev_request now body request) w))
       = queue_short (scheduler w)
    /\ queue_long (scheduler (step (Ev_request now body request) w))
       = queue_long (scheduler w)
    /\ sending (step (Ev_request now body request) w)
       = sending w ++ [mkForward i (By_handler request)].
Proof.
  intros Hnth Hfree. cbn [step]. unfold chat_completions.
  destruct (try_get_worker now (scheduler w) (classify body)) as [i|] eqn:E.
  - exists i. repeat split.
  - exfalso. unfold try_get_worker in E.
    destruct (home_candidates (classify body) (scheduler w)) eqn:Hc;
      [|discriminate].
    pose proof (proj1 (home_candidates_nil_iff _ _) Hc wj
                      (nth_error_In _ _ Hnth)) as Hno.
    congruence.
Qed.

Lemma arrival_overtakes_queue_witness :
  exists i,
    step (Ev_request 2 short_body 99) released_world
    = process_request_begin i (By_handler 99) released_world.
Proof.
  destruct (arrival_overtakes_queue 2 short_body 99 released_world 2
              (mkWorker 3 "http://localhost:8003/v1/chat/completions"
                        SHORT 7 0))
    as (i & H & _).
  - vm_compute. reflexivity.
  - vm_compute. reflexivity.
  - exists i. exact H.
Defined.

Lemma steal_gating_busy_flag_witness :
  LONG = LONG
  /\ BusyFlag.queue_short
       (BusyFlag.mkScheduler
          [BusyFlag.mkWorker 1 "a" LONG true 0;
           BusyFlag.mkWorker 2 "b" LONG true 0;
           BusyFlag.mkWorker 3 "c" SHORT false 0;
           BusyFlag.mkWorker 4 "d" SHORT false 0] [] [] 0) = []
  /\ (2 < BusyFlag.get_idle_duration 3
            (BusyFlag.mkWorker 3 "c" SHORT false 0))%Q.
Proof.
  apply (steal_gating_busy_flag 3
           (BusyFlag.mkScheduler
              [BusyFlag.mkWorker 1 "a" LONG true 0;
               BusyFlag.mkWorker 2 "b" LONG true 0;
               BusyFlag.mkWorker 3 "c" SHORT false 0;
               BusyFlag.mkWorker 4 "d" SHORT false 0] [] [] 0)
           LONG 2 (BusyFlag.mkWorker 3 "c" SHORT false 0)).
  - vm_compute. reflexivity.
  - reflexivity.
  - simpl. discriminate.
Defined.

(** * The dispatch loop under any clock *)

Lemma try_get_worker_short_any (now1 now2 : Q) (s1 s2 : Scheduler) :
  workers s1 = workers s2 ->
  try_get_worker now1 s1 SHORT = try_get_worker now2 s2 SHORT.
Proof.
  intro H. unfold try_get_worker, home_candidates. rewrite H.
  now destruct (filter _ _).
Qed.

Lemma try_get_worker_home_any (now1 now2 : Q) (s : Scheduler) (c : TaskType)
      (j : nat) (wj : Worker) :
  nth_error (workers s) j = Some wj ->
  home_free c wj = true ->
  exists i, try_get_worker now1 s c = Some i
            /\ try_get_worker now2 s c = Some i.
Proof.
  intros Hn Hf. unfold try_get_worker.
  destruct (home_candidates c s) as [|c0 cs] eqn:Hc.
  - pose proof (proj1 (home_candidates_nil_iff c s) Hc wj
                      (nth_error_In _ _ Hn)). congruence.
  - eauto.
Qed.

Lemma dispatch_long_constant (now : Q) (s : Scheduler) (q : list Pending) :
  dispatch_long now s q = dispatch_long_at (fun _ => now) s q.
Proof.
  induction q as [|[[f b] r] q IH]; [reflexivity|].
  cbn [dispatch_long dispatch_long_at]. rewrite IH. reflexivity.
Qed.

Lemma dispatch_queue_constant (now : Q) (s : Scheduler) :
  dispatch_queue now s = dispatch_queue_at (fun _ => now) s.
Proof.
  unfold dispatch_queue, dispatch_queue_at.
  destruct (dispatch_short now s (queue_short s)) as [s1 ts1].
  now rewrite dispatch_long_constant.
Qed.

Lemma task_entry_run_tasks_on (i : nat) (q : list Pending) :
  map task_entry (run_tasks_on i q) = map Some q.
Proof.
  unfold run_tasks_on. rewrite map_map. apply map_ext.
  now intros [[f b] r].
Qed.

Lemma task_worker_run_tasks_on (i : nat) (q : list Pending) (t : Task) :
  In t (run_tasks_on i q) -> task_worker t = Some i.
Proof.
  unfold run_tasks_on. intro H. apply in_map_iff in H as (p & <- & _).
  reflexivity.
Qed.

Lemma dispatch_long_at_spec (clock : nat -> Q) (s : Scheduler)
      (q : list Pending) :
  exists served,
    q = served ++ queue_long (fst (dispatch_long_at clock s q))
    /\ map task_entry (snd (dispatch_long_at clock s q)) = map Some served
    /\ workers (fst (dispatch_long_at clock s q)) = workers s
    /\ queue_short (fst (dispatch_long_at clock s q)) = queue_short s
    /\ last_rebalance_time (fst (dispatch_long_at clock s q))
       = last_rebalance_time s
    /\ (forall k t,
           nth_error (snd (dispatch_long_at clock s q)) k = Some t ->
           exists i, task_worker t = Some i
                     /\ try_get_worker (clock k) s LONG = Some i)
    /\ (queue_long (fst (dispatch_long_at clock s q)) = []
        \/ try_get_worker (clock (List.length served)) s LONG = None).
Proof.
  revert clock. induction q as [|[[f b] r] q IH]; intro clock.
  - exists []. cbn. repeat split; auto. intros [|k] t H; discriminate.
  - cbn [dispatch_long_at].
    rewrite (try_get_worker_frame (clock 0) (set_queue_long _ s) s LONG)
      by reflexivity.
    destruct (try_get_worker (clock 0) s LONG) as [worker|] eqn:E.
    + destruct (IH (fun k => clock (S k)))
        as (served & Hq & Hts & Hw & Hs & Ht & Hk & Hstop).
      destruct (dispatch_long_at (fun k => clock (S k)) s q) as [s' ts].
      cbn [fst snd] in *. exists ((f, b, r) :: served).
      split; [cbn; now f_equal|].
      split; [cbn; now f_equal|].
      split; [exact Hw|]. split; [exact Hs|]. split; [exact Ht|].
      split.
      * intros [|k] t Hn; cbn in Hn.
        -- injection Hn as <-. exists worker. split; [reflexivity | exact E].
        -- exact (Hk k t Hn).
      * exact Hstop.
    + exists []. cbn. repeat split; auto. intros [|k] t H; discriminate.
Qed.

(** C6: one [dispatch_queue] call, whatever the clock readings of its
    iterations, changes neither the workers nor [last_rebalance_time]
    and serves a prefix of the SHORT queue and then a prefix of the LONG
    queue, each in queue order: the tasks it creates are, in creation
    order, one per served SHORT entry followed by one per served LONG
    entry, each on the worker [try_get_worker] returned for its class
    at that iteration.  The SHORT loop ends only with the SHORT queue
    empty or [try_get_worker(SHORT)] finding nothing, and only then is
    the LONG queue served, until it is empty or [try_get_worker(LONG)]
    finds nothing.  So within a class an earlier entry is never
    dispatched after a later one. *)
Theorem dispatch_queue_order (clock : nat -> Q) (s : Scheduler) :
  (forall now, dispatch_queue now s = dispatch_queue_at (fun _ => now) s)
  /\ exists served_short served_long ts_short ts_long,
      snd (dispatch_queue_at clock s) = ts_short ++ ts_long
      /\ queue_short s
         = served_short ++ queue_short (fst (dispatch_queue_at clock s))
      /\ queue_long s
         = served_long ++ queue_long (fst (dispatch_queue_at clock s))
      /\ workers (fst (dispatch_queue_at clock s)) = workers s
      /\ last_rebalance_time (fst (dispatch_queue_at clock s))
         = last_rebalance_time s
      /\ map task_entry ts_short = map Some served_short
      /\ map task_entry ts_long = map Some served_long
      /\ (forall t, In t ts_short ->
            exists i, task_worker t = Some i
                      /\ forall now, try_get_worker now s SHORT = Some i)
      /\ (forall k t, nth_error ts_long k = Some t ->
            exists i, task_worker t = Some i
                      /\ try_get_worker (clock k)
                           (fst (dispatch_queue_at clock s)) LONG = Some i)
      /\ (queue_short (fst (dispatch_queue_at clock s)) = []
          \/ forall now, try_get_worker now s SHORT = None)
      /\ (queue_long (fst (dispatch_queue_at clock s)) = []
          \/ try_get_worker (clock (List.length served_long))
               (fst (dispatch_queue_at clock s)) LONG = None).
Proof.
  split; [intro now; apply dispatch_queue_constant|].
  unfold dispatch_queue_at. rewrite dispatch_short_closed.
  destruct (try_get_worker (clock 0) s SHORT) as [i|] eqn:E1.
  - destruct (dispatch_long_at_spec clock (set_queue_short [] s)
                                    (queue_long (set_queue_short [] s)))
      as (sl & Hq & Hts & Hw & Hs & Ht & Hk & Hstop).
    destruct (dispatch_long_at clock (set_queue_short [] s)
                               (queue_long (set_queue_short [] s)))
      as [s2 ts2].
    cbn [fst snd] in *.
    assert (Hframe : forall now,
               try_get_worker now s2 LONG
               = try_get_worker now (set_queue_short [] s) LONG)
      by (intro now; apply try_get_worker_frame; assumption).
    exists (queue_short s), sl, (run_tasks_on i (queue_short s)), ts2.
    split; [reflexivity|].
    split; [rewrite Hs; cbn; now rewrite app_nil_r|].
    split; [exact Hq|]. split; [exact Hw|]. split; [exact Ht|].
    split; [apply task_entry_run_tasks_on|]. split; [exact Hts|].
    split.
    { intros t Hin. exists i.
      split; [now apply task_worker_run_tasks_on in Hin|].
      intro now. rewrite <- E1. now apply try_get_worker_short_any. }
    split.
    { intros k t Hn. destruct (Hk k t Hn) as (j & Hj & Htry).
      exists j. split; [exact Hj | now rewrite Hframe]. }
    split; [left; rewrite Hs; reflexivity|].
    destruct Hstop as [He | Hn]; [now left | right; now rewrite Hframe].
  - rewrite set_queue_short_same.
    destruct (dispatch_long_at_spec clock s (queue_long s))
      as (sl & Hq & Hts & Hw & Hs & Ht & Hk & Hstop).
    destruct (dispatch_long_at clock s (queue_long s)) as [s2 ts2].
    cbn [fst snd] in *.
    assert (Hframe : forall now,
               try_get_worker now s2 LONG = try_get_worker now s LONG)
      by (intro now; apply try_get_worker_frame; assumption).
    exists [], sl, [], ts2.
    split; [reflexivity|].
    split; [now rewrite Hs|].
    split; [exact Hq|]. split; [exact Hw|]. split; [exact Ht|].
    split; [reflexivity|]. split; [exact Hts|].
    split; [intros t []|].
    split.
    { intros k t Hn. destruct (Hk k t Hn) as (j & Hj & Htry).
      exists j. split; [exact Hj | now rewrite Hframe]. }
    split.
    { right. intro now. rewrite <- E1. now apply try_get_worker_short_any. }
    destruct Hstop as [He | Hn]; [now left | right; now rewrite Hframe].
Qed.

Lemma dispatch_queue_order_witness :
  exists i, try_get_worker 2 released_scheduler SHORT = Some i.
Proof.
  destruct (dispatch_queue_order (fun _ => 2%Q) released_scheduler)
    as (_ & ss & sl & ts_s & ts_l & Hsnd & _ & Hql & _ & _ & _ & Hel & Hin & _).
  assert (Hlong : queue_long released_scheduler = [])
    by (vm_compute; reflexivity).
  rewrite Hlong in Hql. symmetry in Hql.
  apply app_eq_nil in Hql as [-> _].
  destruct ts_l as [|t ts_l]; [|discriminate Hel].
  assert (Hts : snd (dispatch_queue_at (fun _ => 2%Q) released_scheduler)
                = [T_run_task 2 short_body 16 0])
    by (vm_compute; reflexivity).
  rewrite Hts, app_nil_r in Hsnd. subst ts_s.
  destruct (Hin _ (or_introl eq_refl)) as (i & _ & Htry).
  exists i. apply Htry.
Defined.

Lemma dispatch_long_at_all (clock : nat -> Q) (s : Scheduler) (i : nat)
      (q : list Pending) :
  (forall now, try_get_worker now s LONG = Some i) ->
  dispatch_long_at clock s q = (set_queue_long [] s, run_tasks_on i q).
Proof.
  intro Hall. revert clock.
  induction q as [|[[f b] r] q IH]; intro clock; [reflexivity|].
  cbn [dispatch_long_at].
  rewrite (try_get_worker_frame (clock 0) (set_queue_long _ s) s LONG)
    by reflexivity.
  now rewrite Hall, IH.
Qed.

Lemma dispatch_long_at_none (clock : nat -> Q) (s : Scheduler)
      (q : list Pending) :
  try_get_worker (clock 0) s LONG = None ->
  dispatch_long_at clock s q = (set_queue_long q s, []).
Proof.
  intro Hnone. destruct q as [|[[f b] r] q]; [reflexivity|].
  cbn [dispatch_long_at].
  rewrite (try_get_worker_frame (clock 0) (set_queue_long _ s) s LONG)
    by reflexivity.
  now rewrite Hnone.
Qed.

Lemma try_get_worker_long_blocked (now : Q) (s : Scheduler) :
  (forall w, In w (workers s) -> home_free LONG w = false) ->
  queue_short s <> [] ->
  try_get_worker now s LONG = None.
Proof.
  intros Hhome Hq. apply home_candidates_nil_iff in Hhome.
  unfold try_get_worker. rewrite Hhome.
  apply steal_loop_none_iff. left.
  destruct (queue_short s); [contradiction | reflexivity].
Qed.

(** With stealing the clock matters: between two iterations worker 3
    crosses the steal cooldown, and the two LONG requests go to two
    different workers. *)
Lemma steal_follows_the_clock :
  snd (dispatch_queue_at staggered_clock staggered_scheduler)
  = [T_run_task 3 long_body 16 0; T_run_task 2 long_body 17 1].
Proof. vm_compute. reflexivity. Qed.

(** X11: where the clock plays no part, one [dispatch_queue] call is
    all or nothing, whatever the clock readings of its iterations.  The
    worker loads do not move while it runs; so if [try_get_worker]
    finds a worker for SHORT the whole SHORT queue is placed on that one
    worker, otherwise the SHORT queue is untouched.  Then, if some LONG
    worker has a free slot, the whole LONG queue is placed on one LONG
    worker; and if no LONG worker has a free slot while SHORT requests
    still wait, no LONG request is placed.  (Only LONG requests placed
    by stealing depend on the clock readings.) *)
Theorem dispatch_queue_all_or_nothing (clock : nat -> Q) (s : Scheduler) :
  (forall now, try_get_worker now s SHORT = try_get_worker (clock 0) s SHORT)
  /\ (forall s1 ts1,
        (s1, ts1)
        = match try_get_worker (clock 0) s SHORT with
          | Some i => (set_queue_short [] s, run_tasks_on i (queue_short s))
          | None => (s, [])
          end ->
        dispatch_queue_at clock s
        = (fst (dispatch_long_at clock s1 (queue_long s)),
           ts1 ++ snd (dispatch_long_at clock s1 (queue_long s)))
        /\ (forall j wj,
              nth_error (workers s) j = Some wj ->
              home_free LONG wj = true ->
              exists i,
                (forall now, try_get_worker now s1 LONG = Some i)
                /\ dispatch_queue_at clock s
                   = (set_queue_long [] s1,
                      ts1 ++ run_tasks_on i (queue_long s)))
        /\ ((forall w, In w (workers s) -> home_free LONG w = false) ->
            queue_short s1 <> [] ->
            dispatch_queue_at clock s = (s1, ts1))).
Proof.
  split; [intro now; now apply try_get_worker_short_any|].
  intros s1 ts1 Heq.
  assert (Hshort : dispatch_short (clock 0) s (queue_short s) = (s1, ts1)).
  { rewrite dispatch_short_closed, Heq.
    destruct (try_get_worker (clock 0) s SHORT); [reflexivity|].
    now rewrite set_queue_short_same. }
  assert (Hw : workers s1 = workers s /\ queue_long s1 = queue_long s).
  { destruct (try_get_worker (clock 0) s SHORT);
      injection Heq as -> ->; split; reflexivity. }
  destruct Hw as [Hw Hl].
  assert (Hdq : dispatch_queue_at clock s
                = (fst (dispatch_long_at clock s1 (queue_long s)),
                   ts1 ++ snd (dispatch_long_at clock s1 (queue_long s)))).
  { unfold dispatch_queue_at. rewrite Hshort, Hl.
    now destruct (dispatch_long_at clock s1 (queue_long s)). }
  split; [exact Hdq | split].
  - intros j wj Hn Hf. rewrite <- Hw in Hn.
    destruct (try_get_worker_home_any (clock 0) (clock 0) s1 LONG j wj Hn Hf)
      as (i & Hi & _).
    exists i.
    assert (Hall : forall now, try_get_worker now s1 LONG = Some i).
    { intro now.
      destruct (try_get_worker_home_any now (clock 0) s1 LONG j wj Hn Hf)
        as (i' & H1 & H2). congruence. }
    split; [exact Hall|].
    rewrite Hdq, (dispatch_long_at_all clock s1 i _ Hall). reflexivity.
  - intros Hhome Hq. rewrite <- Hw in Hhome.
    rewrite Hdq, dispatch_long_at_none, <- Hl, set_queue_long_same.
    + cbn. now rewrite app_nil_r.
    + now apply try_get_worker_long_blocked.
Qed.

Lemma dispatch_queue_all_or_nothing_witness :
  exists i,
    dispatch_queue_at (fun k => inject_Z (Z.of_nat k)) relieved_scheduler
    = (set_queue_long [] (set_queue_short [] relieved_scheduler),
       [] ++ run_tasks_on i (queue_long relieved_scheduler)).
Proof.
  destruct (dispatch_queue_all_or_nothing
              (fun k => inject_Z (Z.of_nat k)) relieved_scheduler)
    as (_ & H).
  destruct (H (set_queue_short [] relieved_scheduler) []) as (_ & H2 & _).
  - vm_compute. reflexivity.
  - destruct (H2 2 (mkWorker 3 "http://localhost:8003/v1/chat/completions"
                             LONG 0 0)) as (i & _ & Hi).
    + vm_compute. reflexivity.
    + vm_compute. reflexivity.
    + exists i. exact Hi.
Defined.

(** * How entries enter and leave the wait queues *)

Lemma skipn_served {A : Type} (served rest : list A) :
  skipn (List.length served) (served ++ rest) = rest.
Proof. induction served as [|x l IH]; simpl; [reflexivity | exact IH]. Qed.

(** Every event leaves each queue as a tail of what it was, with at
    most the arriving request appended. *)
Lemma step_queues (e : Event) (w : World) :
  exists n_short n_long added_short added_long,
    queue_short (scheduler (step e w))
    = skipn n_short (queue_short (scheduler w)) ++ added_short
    /\ queue_long (scheduler (step e w))
       = skipn n_long (queue_long (scheduler w)) ++ added_long
    /\ n_short <= List.length (queue_short (scheduler w))
    /\ n_long <= List.length (queue_long (scheduler w))
    /\ (runs_drain e w = false -> n_short = 0 /\ n_long = 0)
    /\ (forall p, In p (added_short ++ added_long) ->
          added_short ++ added_long = [p]
          /\ exists now body request,
               e = Ev_request now body request
               /\ p = (next_future w, body, request)).
Proof.
  assert (Hsame : forall s' : Scheduler,
            queue_short s' = queue_short (scheduler w) ->
            queue_long s' = queue_long (scheduler w) ->
            exists n_short n_long added_short added_long,
              queue_short s'
              = skipn n_short (queue_short (scheduler w)) ++ added_short
              /\ queue_long s'
                 = skipn n_long (queue_long (scheduler w)) ++ added_long
              /\ n_short <= List.length (queue_short (scheduler w))
              /\ n_long <= List.length (queue_long (scheduler w))
              /\ (runs_drain e w = false -> n_short = 0 /\ n_long = 0)
              /\ (forall p, In p (added_short ++ added_long) ->
                    added_short ++ added_long = [p]
                    /\ exists now body request,
                         e = Ev_request now body request
                         /\ p = (next_future w, body, request))).
  { intros s' Hs Hl. exists 0, 0, [], []. cbn [skipn].
    rewrite !app_nil_r. repeat split; auto; try lia;
      match goal with H : In _ _ |- _ => destruct H end. }
  destruct e as [now body request | now | now k o | now]; cbn [step].
  - unfold chat_completions.
    destruct (try_get_worker now (scheduler w) (classify body)).
    + apply Hsame; reflexivity.
    + destruct (classify body).
      * exists 0, 0, [], [(next_future w, body, request)].
        cbn [skipn]. rewrite app_nil_r. repeat split; try lia.
        -- destruct H as [<- | []]. reflexivity.
        -- destruct H as [<- | []]. now exists now, body, request.
      * exists 0, 0, [(next_future w, body, request)], [].
        cbn [skipn]. rewrite app_nil_r. repeat split; try lia.
        -- destruct H as [<- | []]. reflexivity.
        -- destruct H as [<- | []]. now exists now, body, request.
  - unfold run_ready. unfold runs_drain in *.
    destruct (ready w) as [|[|i b r f] rest] eqn:Er.
    + apply Hsame; reflexivity.
    + destruct (dispatch_queue_served now (scheduler w))
        as (ss & sl & Hs & Hl & _).
      destruct (dispatch_queue now (scheduler w)) as [s' ts].
      cbn [fst] in *.
      exists (List.length ss), (List.length sl), [], [].
      rewrite !app_nil_r, Hs, Hl, !skipn_served, !length_app.
      repeat split; try lia; try discriminate;
        match goal with H : In _ _ |- _ => destruct H end.
    + apply Hsame; reflexivity.
  - unfold send_done. destruct (nth_error (sending w) k) as [fw|];
      [|apply Hsame; reflexivity].
    unfold process_request_end, run_task_end.
    destruct (fw_awaiter fw); destruct o; apply Hsame; reflexivity.
  - destruct (qhap_tick_queues now (scheduler w)) as [Hl Hs].
    apply Hsame; assumption.
Qed.

(** X13: the wait queues are FIFO under every event.  After an event
    each queue is a tail of what it was (entries leave only at the
    head, and only when the event runs a [dispatch_queue]), followed by
    at most one new entry, which is the arriving request with a fresh
    future; in a reachable state no waiting entry carries that
    future. *)
Theorem queues_are_fifo (e : Event) (w : World) :
  exists n_short n_long added_short added_long,
    queue_short (scheduler (step e w))
    = skipn n_short (queue_short (scheduler w)) ++ added_short
    /\ queue_long (scheduler (step e w))
       = skipn n_long (queue_long (scheduler w)) ++ added_long
    /\ n_short <= List.length (queue_short (scheduler w))
    /\ n_long <= List.length (queue_long (scheduler w))
    /\ (runs_drain e w = false -> n_short = 0 /\ n_long = 0)
    /\ (forall p, In p (added_short ++ added_long) ->
          added_short ++ added_long = [p]
          /\ exists now body request,
               e = Ev_request now body request
               /\ p = (next_future w, body, request))
    /\ (reachable w ->
        ~ In (next_future w)
             (map pending_future
                  (queue_short (scheduler w) ++ queue_long (scheduler w)))).
Proof.
  destruct (step_queues e w)
    as (ns & nl & a_s & a_l & H1 & H2 & H3 & H4 & H5 & H6).
  exists ns, nl, a_s, a_l. repeat split; try assumption; try (now apply H5).
  - now apply H6.
  - now apply H6.
  - intros Hr Hin.
    pose proof (reachable_stage_count w (next_future w) Hr) as Hc.
    rewrite Nat.ltb_irrefl in Hc. unfold stage_count in Hc.
    rewrite map_app in Hin. apply in_app_or in Hin.
    assert (Hz : occ (next_future w)
                     (map pending_future (queue_short (scheduler w))) = 0
                 /\ occ (next_future w)
                        (map pending_future (queue_long (scheduler w))) = 0)
      by lia.
    destruct Hz as [Hzs Hzl].
    destruct Hin as [Hin | Hin];
      [apply (count_occ_not_In Nat.eq_dec) in Hzs
      | apply (count_occ_not_In Nat.eq_dec) in Hzl]; contradiction.
Qed.

Lemma queues_are_fifo_witness :
  ~ In (next_future released_world)
       (map pending_future
            (queue_short (scheduler released_world)
             ++ queue_long (scheduler released_world))).
Proof.
  destruct (queues_are_fifo (Ev_run_ready 2) released_world)
    as (ns & nl & a_s & a_l & _ & _ & _ & _ & _ & _ & H).
  apply H. unfold released_world. apply reachable_run, reachable_init.
Defined.

(** * What a tick does and who schedules [dispatch_queue] *)


